(** * NativeJIT: conditional / relational lowering and function frames

    A shallow embedding of [src/NativeJIT/ConditionalNode.h] (the templates
    [ConditionalNode<T, JCC>] and [RelationalOperatorNode<T, JCC>]) and of the
    frame computation exercised by
    [UnitTest/CodeGenUnitTest/FunctionBufferUnitTest.cpp].

    Code generation in NativeJIT is stateful: every method receives the
    [ExpressionTree&] and appends to the [X64CodeGenerator] it owns, and any
    call may leave by a C++ exception.  The embedding threads the tree
    explicitly and records a thrown exception in the outcome, keeping the
    state reached at the throw.  The helpers of the register tests of
    the same unit test are embedded as well, over the machine on which
    the frames run. *)

From Stdlib Require Import ZArith Lia Bool List String.
From stdpp Require Import base option list functions.

Local Open Scope N_scope.

(* ===================================================================== *)
(** ** The x64 code generator as the source drives it *)
(* ===================================================================== *)

(** Modelled from the spec: [X64CodeGenerator.h], which declares
    [JccType], is not under [src/].  Section 4.5 speaks of the condition
    code associated with a relational operator; these are the sixteen
    condition codes of the x64 conditional jumps, the template argument
    [JCC] of the node classes. *)
Inductive JccType :=
| JO | JNO | JB | JAE | JE | JNE | JBE | JA
| JS | JNS | JP | JNP | JL | JGE | JLE | JG.


(** The opcodes named in the sources ([OpCode::Mov], [OpCode::Or], ...). *)
Module OpCode.
Inductive t := Add | Call | Cmp | Lea | Mov | MovAligned128 | Or | Ret | Sub.
End OpCode.

(** A [Label] handed out by [AllocateLabel], and the id of a hardware
    register. *)
Abbreviation Label := nat (only parsing).
Abbreviation Register := N (only parsing).

(** Modelled from the spec: [Register.h] is not under [src/].  Section
    4.4: the two results occupy the same physical register or not.  Both
    operands of the test in [ConditionalNode::CodeGenValue] are registers
    of the one type [T], so they do exactly when their ids agree. *)
Definition IsSameHardwareRegister (a b : Register) : bool := N.eqb a b.

(** [Storage<T>] is a handle: copies of it designate the same allocator
    entry, so [falseValue] still designates the converted value after
    [ConvertToDirect].  The handle is the number of its entry. *)
Abbreviation Storage := nat (only parsing).

(** Modelled from the spec: [X64CodeGenerator.h] and [CodeGenHelpers.h]
    are not under [src/], and the encoding of instructions is out of the
    scope of section 1.  The buffer of section 3 is append-only: it is the
    list of the calls made on the generator, in emission order, one
    constructor per call the node classes make.  [EmitFromStorage] stands
    for [CodeGenHelpers::Emit<OP>(code, dest, src)], the compare
    instruction of section 4.5: one instruction [OP dest, src] with the
    operand form of the storage. *)
Inductive Instr :=
| EmitConditionalJump (jcc : JccType) (l : Label)
| Jmp (l : Label)
| PlaceLabel (l : Label)
| Emit (op : OpCode.t) (dest src : Register)
| EmitImmediate (op : OpCode.t) (dest : Register) (value : Z)
| EmitFromStorage (op : OpCode.t) (dest : Register) (src : Storage).

Record X64CodeGenerator := mkCode {
  m_emitted : list Instr;
  m_labelCount : nat
}.

(** What a C++ call can do: return, or throw. [throw 0] throws an [int]. *)
Inductive Exception :=
| ThrowInt (n : Z)
| ThrowOther (what : string).

Inductive Outcome (A : Type) :=
| Return (a : A)
| Thrown (e : Exception).
Arguments Return {A} a.
Arguments Thrown {A} e.

Abbreviation NodeId := nat (only parsing).

(** Modelled from the spec: [Node.h] is not under [src/].  Section 3: a
    node carries its current parent count, the register-pressure number
    produced during labelling, and a [Storage] once evaluated and cached
    for later consumers. *)
Record NodeBase := mkNodeBase {
  m_parentCount : N;
  m_registerCount : N;
  m_cache : option Storage
}.

(** Modelled from the spec: the bodies of [IncrementParentCount] and
    [ReleaseCache] are in [Node.h], not under [src/]; the one adds a
    parent, the other gives the cached [Storage] up. *)
Definition incrementParentCount (b : NodeBase) : NodeBase :=
  mkNodeBase (m_parentCount b + 1) (m_registerCount b) (m_cache b).

Definition releaseCache (b : NodeBase) : NodeBase :=
  mkNodeBase (m_parentCount b) (m_registerCount b) None.

Section Tree.

(** The register allocator of [ExpressionTree] (free registers, spill
    slots, the data behind each [Storage]). *)
Variable Alloc : Type.

(** The tree owns the code generator and its nodes; a [Node<T>&] is the
    index of the node in the tree. *)
Record ExpressionTree := mkTree {
  m_code : X64CodeGenerator;
  m_nodes : list NodeBase;
  m_alloc : Alloc
}.

Definition M (A : Type) := ExpressionTree -> Outcome A * ExpressionTree.

Definition ret {A} (a : A) : M A := fun s => (Return a, s).
Definition throw {A} (e : Exception) : M A := fun s => (Thrown e, s).
Definition bind {A B} (m : M A) (k : A -> M B) : M B :=
  fun s => match m s with
           | (Return a, s') => k a s'
           | (Thrown e, s') => (Thrown e, s')
           end.

(** **** [X64CodeGenerator]

    Modelled from the spec: [X64CodeGenerator.h] is not under [src/].
    Labels are numbered in the order of their allocation, and every emit
    appends to the buffer (section 3: an append-only cursor). *)

Definition withCode (f : X64CodeGenerator -> X64CodeGenerator)
           (s : ExpressionTree) : ExpressionTree :=
  mkTree (f (m_code s)) (m_nodes s) (m_alloc s).

Definition AllocateLabel : M Label := fun s =>
  (Return (m_labelCount (m_code s)),
   withCode (fun c => mkCode (m_emitted c) (S (m_labelCount c))) s).

Definition emit (i : Instr) : M unit := fun s =>
  (Return tt, withCode (fun c => mkCode (m_emitted c ++ [i]) (m_labelCount c)) s).

Definition emitted (s : ExpressionTree) : list Instr := m_emitted (m_code s).

(** **** [NodeBase] accessors, through a reference to the node

    Modelled from the spec: [Node.h] is not under [src/].  A reference
    always designates a node of the tree; [GetCache] is only called on a
    cached node. *)

Definition emptyNode : NodeBase := mkNodeBase 0 0 None.

Definition nodeAt (s : ExpressionTree) (n : NodeId) : NodeBase :=
  default emptyNode (m_nodes s !! n).

Definition withNode (n : NodeId) (f : NodeBase -> NodeBase)
           (s : ExpressionTree) : ExpressionTree :=
  mkTree (m_code s) (alter f n (m_nodes s)) (m_alloc s).

Definition GetParentCount (n : NodeId) (s : ExpressionTree) : N :=
  m_parentCount (nodeAt s n).

Definition IncrementParentCount (n : NodeId) : M unit := fun s =>
  (Return tt, withNode n incrementParentCount s).

Definition IsCached (n : NodeId) (s : ExpressionTree) : bool :=
  match m_cache (nodeAt s n) with Some _ => true | None => false end.

Definition GetCache (n : NodeId) : M Storage := fun s =>
  match m_cache (nodeAt s n) with
  | Some c => (Return c, s)
  | None => (Thrown (ThrowOther "GetCache"), s)
  end.

Definition ReleaseCache (n : NodeId) : M unit := fun s =>
  (Return tt, withNode n releaseCache s).

(** Modelled from the spec: the constructor [Node(tree)] of [Node.h], not
    under [src/].  Section 3: a node has a stable identity in its tree;
    the new node has no parent, no register count and no cached value. *)
Definition NodeBase_new : M NodeId := fun s =>
  (Return (length (m_nodes s)),
   mkTree (m_code s) (m_nodes s ++ [emptyNode]) (m_alloc s)).

(** **** Operations of [ExpressionTree.h] and [Node.h] the classes call

    Their bodies are not under [src/]; a parent only relies on their
    signatures.  [GetDirectRegister] and [GetRegisterCount] are [const]
    accessors; [GetDirectRegister] reads the allocator entry of the
    storage and asserts that it is a register. *)
Class TreeOps := {
  Direct : M Storage;
  ConvertToDirect : Storage -> bool -> M Register;
  GetDirectRegister : Storage -> Alloc -> Outcome Register;
  SetRegisterCount : N -> NodeBase -> NodeBase;
  GetRegisterCount : NodeBase -> N;
  ComputeRegisterCount : N -> N -> N
}.

End Tree.

Arguments mkTree {Alloc} _ _ _.
Arguments m_code {Alloc} _.
Arguments m_nodes {Alloc} _.
Arguments m_alloc {Alloc} _.
Arguments ret {Alloc A} a _.
Arguments throw {Alloc A} e _.
Arguments bind {Alloc A B} m k _.
Arguments AllocateLabel {Alloc} _.
Arguments emit {Alloc} i _.
Arguments emitted {Alloc} s.
Arguments withCode {Alloc} f s.
Arguments withNode {Alloc} n f s.
Arguments nodeAt {Alloc} s n.
Arguments GetParentCount {Alloc} n s.
Arguments IncrementParentCount {Alloc} n _.
Arguments IsCached {Alloc} n s.
Arguments GetCache {Alloc} n _.
Arguments ReleaseCache {Alloc} n _.
Arguments NodeBase_new {Alloc} _.
Arguments Direct {Alloc TreeOps} _.
Arguments ConvertToDirect {Alloc TreeOps} _ _ _.
Arguments GetDirectRegister {Alloc TreeOps} _ _.
Arguments SetRegisterCount {Alloc TreeOps} _ _.
Arguments GetRegisterCount {Alloc TreeOps} _.
Arguments ComputeRegisterCount {Alloc TreeOps} _ _.

(** **** The interfaces a node offers to its parents

    [Node<T>]: the virtual [LabelSubtree] and the (inherited) [CodeGen];
    [FlagExpressionNode<JCC>] derives from [Node<bool>] and adds
    [CodeGenFlags].  A [Node<T>&] held by a parent is the node's place in
    the tree together with the methods the reference dispatches to. *)
Module Node.
Record t (Alloc : Type) := mk {
  GetId : NodeId;
  LabelSubtree : bool -> M Alloc N;
  CodeGen : M Alloc Storage
}.
Arguments mk {Alloc} _ _ _.
Arguments GetId {Alloc} _.
Arguments LabelSubtree {Alloc} _ _ _.
Arguments CodeGen {Alloc} _ _.
End Node.

Module FlagExpressionNode.
Record t (Alloc : Type) := mk {
  base : Node.t Alloc;
  CodeGenFlags : M Alloc unit
}.
Arguments mk {Alloc} _ _.
Arguments base {Alloc} _.
Arguments CodeGenFlags {Alloc} _ _.
End FlagExpressionNode.

Declare Scope cg_scope.
Delimit Scope cg_scope with cg.
Notation "x <- m ;; k" := (bind m (fun x => k))
  (at level 100, m at next level, right associativity) : cg_scope.
Notation "m ;;; k" := (bind m (fun _ => k))
  (at level 100, right associativity) : cg_scope.

Local Open Scope cg_scope.

Section NodeAccess.
Context {Alloc : Type} `{!TreeOps Alloc}.

(** [this->SetRegisterCount(count)] and [node.GetRegisterCount()]. *)
Definition setRegisterCount (n : NodeId) (count : N) : M Alloc unit := fun s =>
  (Return tt, withNode n (SetRegisterCount count) s).

Definition registerCount (n : NodeId) (s : ExpressionTree Alloc) : N :=
  GetRegisterCount (nodeAt s n).

Definition getRegisterCount (n : NodeId) : M Alloc N := fun s =>
  (Return (registerCount n s), s).

(** [storage.GetDirectRegister()]. *)
Definition getDirectRegister (st : Storage) : M Alloc Register := fun s =>
  (GetDirectRegister st (m_alloc s), s).
End NodeAccess.

(** **** Describing a run

    [generates m s code a s']: from the tree [s] the call [m] returns [a],
    leaves the tree [s'], and has appended exactly [code] to the buffer. *)
Definition generates {Alloc A} (m : M Alloc A) (s : ExpressionTree Alloc)
           (code : list Instr) (a : A) (s' : ExpressionTree Alloc) : Prop :=
  m s = (Return a, s') /\ emitted s' = emitted s ++ code.

(** The label [AllocateLabel] hands out next, the tree after it has done
    so, and the tree after [instrs] have been emitted. *)
Definition nextLabel {Alloc} (s : ExpressionTree Alloc) : Label :=
  m_labelCount (m_code s).

Definition labelled {Alloc} (s : ExpressionTree Alloc) : ExpressionTree Alloc :=
  withCode (fun c => mkCode (m_emitted c) (S (m_labelCount c))) s.

Definition emitting {Alloc} (instrs : list Instr) (s : ExpressionTree Alloc)
  : ExpressionTree Alloc :=
  withCode (fun c => mkCode (m_emitted c ++ instrs) (m_labelCount c)) s.

(** The instruction that brings the true branch's result into the register
    of the false branch's result, when the two differ. *)
Definition unifyingMove (rFalse rTrue : Register) : list Instr :=
  if IsSameHardwareRegister rTrue rFalse then []
  else [Emit OpCode.Mov rFalse rTrue].

(** The order of evaluation in the words of section 4.3, to be compared
    with the test [l >= r] of the source: the operand that needs more
    registers goes first, and the left one on a tie. *)
Definition leftGoesFirst (left right : N) : bool :=
  (right <? left) || (left =? right).

(** How many of its parent counts a node owes to being [operand]. *)
Definition references {Alloc} (n : NodeId) (operand : Node.t Alloc) : N :=
  if decide (Node.GetId operand = n) then 1 else 0.

(** The materialization of a flag as 0 or 1 in [reg]. *)
Definition booleanPattern (jcc : JccType) (reg : Register)
           (conditionIsTrue testCompleted : Label) : list Instr :=
  [EmitConditionalJump jcc conditionIsTrue;
   EmitImmediate OpCode.Mov reg 0%Z;
   Jmp testCompleted;
   PlaceLabel conditionIsTrue;
   EmitImmediate OpCode.Mov reg 1%Z;
   PlaceLabel testCompleted].


(** **** The discipline of the code buffer

    The labels an instruction mentions, as the target of a jump or as the
    place it marks. *)
Definition labelsOf (i : Instr) : list Label :=
  match i with
  | EmitConditionalJump _ l => [l]
  | Jmp l => [l]
  | PlaceLabel l => [l]
  | _ => []
  end.

(** Every label the buffer mentions has been handed out by
    [AllocateLabel]. *)
Definition allocatedLabels {Alloc} (s : ExpressionTree Alloc) : Prop :=
  Forall (fun i => Forall (fun l => (l < nextLabel s)%nat) (labelsOf i)) (emitted s).

(** From [s] to [s'] the buffer has only been appended to, no label has
    been given back, and no label that was not handed out has come into
    the buffer. *)
Definition advances {Alloc} (s s' : ExpressionTree Alloc) : Prop :=
  emitted s `prefix_of` emitted s'
  /\ (nextLabel s <= nextLabel s')%nat
  /\ (allocatedLabels s -> allocatedLabels s').

(** A call that keeps this discipline however it ends, by a return or by
    an exception. *)
Definition disciplined {Alloc A} (m : M Alloc A) : Prop :=
  forall s outcome s', m s = (outcome, s') -> advances s s'.

(* ===================================================================== *)
(** ** [ConditionalNode<T, JCC>] *)
(* ===================================================================== *)

Module ConditionalNode.
Section Class.
Context {Alloc : Type} `{!TreeOps Alloc}.

Record t := mk {
  JCC : JccType;
  self : NodeId;
  m_condition : FlagExpressionNode.t Alloc;
  m_trueExpression : Node.t Alloc;
  m_falseExpression : Node.t Alloc
}.

(** The constructor (lines 116-126) only runs [Node(tree)] and binds the
    three references. *)
Definition new (jcc : JccType) (condition : FlagExpressionNode.t Alloc)
           (trueExpression falseExpression : Node.t Alloc) : M Alloc t :=
  id <- NodeBase_new ;;
  ret (mk jcc id condition trueExpression falseExpression).

(** [ConditionalNode<T, JCC>::LabelSubtree] (lines 129-141); the argument
    is not used. *)
Definition LabelSubtree (this : t) (isLeftChild : bool) : M Alloc N :=
  condition <- Node.LabelSubtree (FlagExpressionNode.base (m_condition this)) true ;;
  trueExpression <- Node.LabelSubtree (m_trueExpression this) true ;;
  falseExpression <- Node.LabelSubtree (m_falseExpression this) true ;;
  setRegisterCount (self this)
    (N.max condition (N.max trueExpression falseExpression)) ;;;
  getRegisterCount (self this).

(** [ConditionalNode<T, JCC>::CodeGenValue] (lines 157-196). *)
Definition CodeGenValue (this : t) : M Alloc Storage :=
  FlagExpressionNode.CodeGenFlags (m_condition this) ;;;
  l1 <- AllocateLabel ;;
  emit (EmitConditionalJump (JCC this) l1) ;;;
  falseValue <- Node.CodeGen (m_falseExpression this) ;;
  rFalse <- ConvertToDirect falseValue true ;;
  l2 <- AllocateLabel ;;
  emit (Jmp l2) ;;;
  emit (PlaceLabel l1) ;;;
  trueValue <- Node.CodeGen (m_trueExpression this) ;;
  rTrue <- ConvertToDirect trueValue false ;;
  (if negb (IsSameHardwareRegister rTrue rFalse)
   then emit (Emit OpCode.Mov rFalse rTrue)
   else ret tt) ;;;
  emit (PlaceLabel l2) ;;;
  ret falseValue.

End Class.
Arguments t Alloc : clear implicits.
End ConditionalNode.

(* ===================================================================== *)
(** ** [RelationalOperatorNode<T, JCC>] *)
(* ===================================================================== *)

Module RelationalOperatorNode.
Section Class.
Context {Alloc : Type} `{!TreeOps Alloc}.

Record t := mk {
  JCC : JccType;
  self : NodeId;
  m_left : Node.t Alloc;
  m_right : Node.t Alloc
}.

(** The constructor (lines 204-214). *)
Definition new (jcc : JccType) (left right : Node.t Alloc) : M Alloc t :=
  id <- NodeBase_new ;;
  IncrementParentCount (Node.GetId left) ;;;
  IncrementParentCount (Node.GetId right) ;;;
  ret (mk jcc id left right).

(** [RelationalOperatorNode<T, JCC>::LabelSubtree] (lines 217-227). *)
Definition LabelSubtree (this : t) (isLeftChild : bool) : M Alloc N :=
  left <- Node.LabelSubtree (m_left this) true ;;
  right <- Node.LabelSubtree (m_right this) false ;;
  setRegisterCount (self this) (ComputeRegisterCount left right) ;;;
  getRegisterCount (self this).

(** [RelationalOperatorNode<T, JCC>::CodeGenFlags] (lines 271-307).  The
    register counts are read before either operand is evaluated; the
    comparison is emitted once both storages are known. *)
Definition CodeGenFlags (this : t) : M Alloc unit := fun tree =>
  if IsCached (self this) tree
  then
    (result <- GetCache (self this) ;;
     ReleaseCache (self this) ;;;
     direct <- getDirectRegister result ;;
     emit (Emit OpCode.Or direct direct) ;;;
     throw (ThrowInt 0)) tree
  else
    (let l := registerCount (Node.GetId (m_left this)) tree in
     let r := registerCount (Node.GetId (m_right this)) tree in
     operands <-
       (if r <=? l
        then sLeft <- Node.CodeGen (m_left this) ;;
             sRight <- Node.CodeGen (m_right this) ;;
             ret (sLeft, sRight)
        else sRight <- Node.CodeGen (m_right this) ;;
             sLeft <- Node.CodeGen (m_left this) ;;
             ret (sLeft, sRight)) ;;
     direct <- ConvertToDirect (fst operands) false ;;
     emit (EmitFromStorage OpCode.Cmp direct (snd operands))) tree.

(** [RelationalOperatorNode<T, JCC>::CodeGenValue] (lines 242-268). *)
Definition CodeGenValue (this : t) : M Alloc Storage :=
  conditionIsTrue <- AllocateLabel ;;
  testCompleted <- AllocateLabel ;;
  CodeGenFlags this ;;;
  result <- Direct ;;
  emit (EmitConditionalJump (JCC this) conditionIsTrue) ;;;
  r0 <- getDirectRegister result ;;
  emit (EmitImmediate OpCode.Mov r0 0%Z) ;;;
  emit (Jmp testCompleted) ;;;
  emit (PlaceLabel conditionIsTrue) ;;;
  r1 <- getDirectRegister result ;;
  emit (EmitImmediate OpCode.Mov r1 1%Z) ;;;
  emit (PlaceLabel testCompleted) ;;;
  ret result.

(** The node as a [FlagExpressionNode<JCC>]. *)
Definition asFlagNode (this : t) (codeGen : M Alloc Storage)
  : FlagExpressionNode.t Alloc :=
  FlagExpressionNode.mk (Node.mk (self this) (LabelSubtree this) codeGen)
             (CodeGenFlags this).
End Class.
Arguments t Alloc : clear implicits.
End RelationalOperatorNode.

(* ===================================================================== *)
(** ** A small allocator, to run the node classes on concrete trees *)
(* ===================================================================== *)

(** Every storage of this allocator is a register of its own: the handle
    is the register id, [Direct] takes the next free register, and the
    register count of a node is the stored field. *)
Module SimpleTree.

Definition Alloc := N.

#[export] Instance ops : TreeOps Alloc := {|
  Direct := fun s =>
    (Return (N.to_nat (m_alloc s)),
     mkTree (m_code s) (m_nodes s) (m_alloc s + 1));
  ConvertToDirect := fun st _ => ret (N.of_nat st);
  GetDirectRegister := fun st _ => Return (N.of_nat st);
  SetRegisterCount := fun count b =>
    mkNodeBase (m_parentCount b) count (m_cache b);
  GetRegisterCount := m_registerCount;
  ComputeRegisterCount := fun l r => if N.eqb l r then l + 1 else N.max l r
|}.

(** A leaf that loads a constant into a fresh register. *)
Definition immediate (id : NodeId) (value : Z) : Node.t Alloc :=
  Node.mk id
    (fun _ => setRegisterCount id 1 ;;; getRegisterCount id)
    (st <- Direct ;;
     r <- getDirectRegister st ;;
     emit (EmitImmediate OpCode.Mov r value) ;;;
     ret st).

(** A leaf whose value already sits in register [r]. *)
Definition parameter (id : NodeId) (r : Register) : Node.t Alloc :=
  Node.mk id
    (fun _ => setRegisterCount id 0 ;;; getRegisterCount id)
    (ret (N.to_nat r)).

(** A leaf whose code generation fails after it has emitted a move. *)
Definition failing (id : NodeId) : Node.t Alloc :=
  Node.mk id
    (fun _ => setRegisterCount id 1 ;;; getRegisterCount id)
    (emit (EmitImmediate OpCode.Mov 15 0) ;;;
     throw (ThrowOther "out of registers")).

Definition emptyTree (nodes : list NodeBase) : ExpressionTree Alloc :=
  mkTree (mkCode [] 0) nodes 0.

(** A tree for [(10 < 20) ? 1 : 2]: the constants 10 and 20 (nodes 0 and
    1, labelled with one and two registers), their comparison (node 2),
    the constants 1 and 2 (nodes 3 and 4) and the conditional (node 5). *)
Definition sampleNodes : list NodeBase :=
  [mkNodeBase 1 1 None; mkNodeBase 1 2 None;
   emptyNode; emptyNode; emptyNode; emptyNode].

Definition sampleTree : ExpressionTree Alloc := emptyTree sampleNodes.

Definition sampleRelational : RelationalOperatorNode.t Alloc :=
  RelationalOperatorNode.mk JL 2 (immediate 0 10) (immediate 1 20).

Definition sampleConditional : ConditionalNode.t Alloc :=
  ConditionalNode.mk JL 5
    (RelationalOperatorNode.asFlagNode sampleRelational
       (RelationalOperatorNode.CodeGenValue sampleRelational))
    (immediate 3 1) (immediate 4 2).

(** [(a == b) ? a : a] over two values already in registers 8 and 9
    (nodes 0 and 1): both branches are node 0. *)
Definition sharedConditional : ConditionalNode.t Alloc :=
  let a := parameter 0 8 in
  let b := parameter 1 9 in
  let equal := RelationalOperatorNode.mk JE 2 a b in
  ConditionalNode.mk JE 3
    (RelationalOperatorNode.asFlagNode equal
       (RelationalOperatorNode.CodeGenValue equal))
    a a.


(** The same tree once the comparison has been evaluated and its result,
    storage 7, cached. *)
Definition cachedTree : ExpressionTree Alloc :=
  emptyTree [mkNodeBase 1 1 None; mkNodeBase 1 2 None; mkNodeBase 2 2 (Some 7%nat)].

End SimpleTree.

(** Accessors that do not read back what was set, as the warning in
    [RelationalOperatorNode::LabelSubtree] (line 225) says they may not:
    a node with more than one parent holds a register for its cached
    result besides those its evaluation needs, and [GetRegisterCount]
    counts it.  The rest is as in [SimpleTree]. *)
Module SharingTree.

Definition Alloc := N.

#[export] Instance ops : TreeOps Alloc := {|
  Direct := fun s =>
    (Return (N.to_nat (m_alloc s)),
     mkTree (m_code s) (m_nodes s) (m_alloc s + 1));
  ConvertToDirect := fun st _ => ret (N.of_nat st);
  GetDirectRegister := fun st _ => Return (N.of_nat st);
  SetRegisterCount := fun count b =>
    mkNodeBase (m_parentCount b) count (m_cache b);
  GetRegisterCount := fun b =>
    if 1 <? m_parentCount b then m_registerCount b + 1 else m_registerCount b;
  ComputeRegisterCount := fun l r => if N.eqb l r then l + 1 else N.max l r
|}.

Definition immediate (id : NodeId) (value : Z) : Node.t Alloc :=
  Node.mk id
    (fun _ => setRegisterCount id 1 ;;; getRegisterCount id)
    (st <- Direct ;;
     r <- getDirectRegister st ;;
     emit (EmitImmediate OpCode.Mov r value) ;;;
     ret st).


Definition sharedConditional : ConditionalNode.t Alloc :=
  let relational := RelationalOperatorNode.mk JL 2 (immediate 0 10) (immediate 1 20) in
  ConditionalNode.mk JL 5
    (RelationalOperatorNode.asFlagNode relational
       (RelationalOperatorNode.CodeGenValue relational))
    (immediate 3 1) (immediate 4 2).

End SharingTree.

(* ===================================================================== *)
(** ** Function frames: [FunctionSpecification] and the unwind data *)
(* ===================================================================== *)

(** Modelled from the spec: [Windows/UnwindCode.h] is not under [src/].
    Section 4.1 names the operations of an unwind code: small and large
    allocation, save of a nonvolatile integer register, save of a 128-bit
    vector register; the names are those the tests use. *)
Inductive UnwindCodeOp :=
| UWOP_ALLOC_LARGE
| UWOP_ALLOC_SMALL
| UWOP_SAVE_NONVOL
| UWOP_SAVE_XMM128.

(** Modelled from the spec: [Windows/UnwindCode.h] is not under [src/].
    Sections 3 and 6: an unwind code is a two-byte entry, either the
    triple (code offset, operation, operand) or, for the second slot of a
    two-slot operation, a bare offset or count.  The fields bear the names
    the tests read them by; their values are kept as numbers, not cut to
    the width of the bit field. *)
Inductive UnwindCode :=
| Operation (m_codeOffset : N) (m_unwindOp : UnwindCodeOp) (m_opInfo : N)
| FrameOffset (m_frameOffset : N).

(** Modelled from the spec: [Windows/UnwindCode.h] is not under [src/].
    Section 6: the header holds version, flags, frame register, frame
    offset and the count of codes (and the size of the prolog); the codes
    follow. *)
Record UnwindInfo := mkUnwindInfo {
  m_version : N;
  m_flags : N;
  m_sizeOfProlog : N;
  m_countOfCodes : N;
  m_frameRegister : N;
  m_frameOffset : N;
  m_unwindCodes : list UnwindCode
}.

(** Modelled from the spec: section 6 gives 2-byte entries after a header
    of four one-byte fields.  These are the [sizeof(UnwindInfo) -
    sizeof(UnwindCode)] and the [sizeof(UnwindCode)] of
    [ValidateUnwindInfo]. *)
Definition baseUnwindInfoSize : N := 4.
Definition sizeofUnwindCode : N := 2.

(** A register operand of a frame instruction: [Register<8, false>] or
    [Register<_, true>]. *)
Inductive FrameRegister :=
| Rxx (id : N)
| Xmm (id : N).

#[global] Instance FrameRegister_eq_dec : EqDecision FrameRegister.
Proof. solve_decision. Defined.

Definition rsp : FrameRegister := Rxx 4.
Definition rbp : FrameRegister := Rxx 5.

(** The calls the tests make on a [FunctionBuffer] to spell the expected
    prolog and epilog: [EmitImmediate<OP>(dest, value)],
    [Emit<OP>(base, offset, src)], [Emit<OP>(dest, base, offset)] and
    [Emit<OpCode::Ret>()]. *)
Inductive FrameInstr :=
| FImmediate (op : OpCode.t) (dest : FrameRegister) (value : Z)
| FStore (op : OpCode.t) (base : FrameRegister) (offset : Z) (src : FrameRegister)
| FLoad (op : OpCode.t) (dest : FrameRegister) (base : FrameRegister) (offset : Z)
| FRet.

Module FunctionSpecification.

Inductive BaseRegisterType := Unused | SetRbpToOriginalRsp.

(** The arguments of the constructor, in the order the tests pass them
    (after the allocator, before the diagnostics stream). *)
Record Args := mkArgs {
  maxFunctionCallParameters : Z;
  numStackSlots : N;
  rxxRegisterSaveMask : N;
  xmmRegisterSaveMask : N;
  baseRegisterType : BaseRegisterType
}.

(** What the tests read from a specification. *)
Record t := mk {
  GetOffsetToOriginalRsp : Z;
  GetProlog : list FrameInstr;
  GetEpilog : list FrameInstr;
  GetUnwindInfo : UnwindInfo;
  GetUnwindInfoByteLength : N
}.

(** Modelled from the spec: [FunctionSpecification.cpp] is not under
    [src/].  Section 4.1 saves the registers in declaration order: those
    of a mask, lowest id first (XMM10 before XMM11 in the test). *)
Definition registersOf (mask : N) : list N :=
  filter (fun id => N.testbit mask id = true) (map N.of_nat (seq 0 16)).

Definition roundUpToEven (n : N) : N := if N.even n then n else n + 1.
Definition roundUpToOdd (n : N) : N := if N.even n then n + 1 else n.

(** Modelled from the spec: section 4.1 (2), the integer registers the
    prolog saves are those of the mask, and the base register when the
    frame sets it; its save takes no slot beyond theirs. *)
Definition rxxMaskOf (a : Args) : N :=
  match baseRegisterType a with
  | SetRbpToOriginalRsp => N.lor (rxxRegisterSaveMask a) (N.shiftl 1 5)
  | Unused => rxxRegisterSaveMask a
  end.

(** The frame, in quadword slots counted from the new stack pointer: each
    saved register with the slot that holds it (a vector register holds
    two). *)
Record Layout := mkLayout {
  rxxSaves : list (N * N);
  xmmSaves : list (N * N);
  totalSlots : N
}.

(** Registers [ids] placed from slot [first] on, [width] slots each. *)
Fixpoint place (first width : N) (ids : list N) : list (N * N) :=
  match ids with
  | [] => []
  | id :: rest => (id, first) :: place (first + width) width rest
  end.

(** Modelled from the spec: [FunctionSpecification.cpp] is not under
    [src/].  Section 4.1: the slots are laid out in the fixed order (1) homes of
    the outgoing call arguments (none without calls; the tests give four
    homes to a call with one argument and six to one with six), (2) one
    slot per saved integer register, the base register among them under
    [SetRbpToOriginalRsp], (3) padding up to a 16-byte boundary before the
    vector saves, (4) 16 bytes per saved vector register, (5) the local
    slots, (6) padding that keeps the stack 16-byte aligned given the
    return address already pushed: the slot count is odd, hence at least
    one. *)
Definition layout (a : Args) : Layout :=
  let paramSlots :=
    if (0 <=? maxFunctionCallParameters a)%Z
    then Z.to_N (Z.max (maxFunctionCallParameters a) 4)
    else 0 in
  let rxx := registersOf (rxxMaskOf a) in
  let xmm := registersOf (xmmRegisterSaveMask a) in
  let afterRxx := paramSlots + N.of_nat (length rxx) in
  let xmmFirst :=
    match xmm with [] => afterRxx | _ => roundUpToEven afterRxx end in
  let afterXmm := xmmFirst + 2 * N.of_nat (length xmm) in
  mkLayout (place paramSlots 1 rxx)
           (place xmmFirst 2 xmm)
           (roundUpToOdd (afterXmm + numStackSlots a)).

(** The slots that hold saved registers. *)
Definition saveArea (l : Layout) : list N :=
  map snd (rxxSaves l) ++ flat_map (fun save => [save.2; save.2 + 1]) (xmmSaves l).

Definition slotOffset (slot : N) : Z := 8 * Z.of_N slot.
Definition frameBytes (l : Layout) : Z := slotOffset (totalSlots l).

(** One step of the prolog together with the unwind code that describes
    it; the code is completed with the buffer offset reached after the
    step. *)
Definition Step : Type := list FrameInstr * (N -> list UnwindCode).

(** Modelled from the spec: section 4.1, unwind-code synthesis.  A small
    allocation carries the slot count less one in its operand nibble, so
    it serves up to sixteen slots; a large one holds the count in a second
    slot. *)
Definition allocStep (l : Layout) : Step :=
  ([FImmediate OpCode.Sub rsp (frameBytes l)],
   fun offset =>
     if totalSlots l <=? 16
     then [Operation offset UWOP_ALLOC_SMALL (totalSlots l - 1)]
     else [Operation offset UWOP_ALLOC_LARGE 0; FrameOffset (totalSlots l)]).

(** Modelled from the spec: section 4.1, one two-slot code per saved
    integer register: operation, register id, quadword offset. *)
Definition rxxStep (save : N * N) : Step :=
  ([FStore OpCode.Mov rsp (slotOffset save.2) (Rxx save.1)],
   fun offset =>
     [Operation offset UWOP_SAVE_NONVOL save.1; FrameOffset save.2]).

(** Modelled from the spec: section 4.1, one two-slot code per saved
    vector register: operation, register id, offset in 16-byte units. *)
Definition xmmStep (save : N * N) : Step :=
  ([FStore OpCode.MovAligned128 rsp (slotOffset save.2) (Xmm save.1)],
   fun offset =>
     [Operation offset UWOP_SAVE_XMM128 save.1; FrameOffset (save.2 / 2)]).

(** Modelled from the spec: section 4.1, the prolog ends with the
    optional recomputation of the base register.  It belongs to the last
    step (the tests record one buffer offset for both). *)
Fixpoint withBaseRegister (lea : list FrameInstr) (steps : list Step) : list Step :=
  match steps with
  | [] => []
  | [(instrs, code)] => [(instrs ++ lea, code)]
  | step :: rest => step :: withBaseRegister lea rest
  end.

(** Modelled from the spec: section 4.1, the prolog: the decrement of the
    stack pointer, then the saves in declaration order, integer registers
    before vector registers. *)
Definition saveSteps (l : Layout) : list Step :=
  allocStep l :: map rxxStep (rxxSaves l) ++ map xmmStep (xmmSaves l).

(** Modelled from the spec: section 3, the base register is set to the
    original stack pointer, the new one plus the frame size. *)
Definition baseRegisterSetup (a : Args) (l : Layout) : list FrameInstr :=
  match baseRegisterType a with
  | SetRbpToOriginalRsp => [FLoad OpCode.Lea rbp rsp (frameBytes l)]
  | Unused => []
  end.

Definition prologSteps (a : Args) (l : Layout) : list Step :=
  match baseRegisterSetup a l with
  | [] => saveSteps l
  | lea => withBaseRegister lea (saveSteps l)
  end.

Definition rxxRestore (save : N * N) : FrameInstr :=
  FLoad OpCode.Mov (Rxx save.1) rsp (slotOffset save.2).

Definition xmmRestore (save : N * N) : FrameInstr :=
  FLoad OpCode.MovAligned128 (Xmm save.1) rsp (slotOffset save.2).

(** Modelled from the spec: section 4.1, the epilog is the exact reverse
    of the prolog: register restores, stack-pointer increment, return. *)
Definition epilogOf (l : Layout) : list FrameInstr :=
  reverse (map xmmRestore (xmmSaves l))
  ++ reverse (map rxxRestore (rxxSaves l))
  ++ [FImmediate OpCode.Add rsp (frameBytes l); FRet].

Section Encoding.

(** Number of bytes the [FunctionBuffer] emits for an instruction; the
    encoder is outside the sources at hand. *)
Variable encodedLength : FrameInstr -> N.

Definition lengthOf (instrs : list FrameInstr) : N :=
  foldr (fun i n => encodedLength i + n) 0 instrs.

(** Modelled from the spec: section 4.1, each code records the buffer
    position reached after its step, and the codes are stored last step
    first: the unwinder replays the prolog backwards. *)
Fixpoint unwindCodesFrom (pos : N) (steps : list Step) : list UnwindCode :=
  match steps with
  | [] => []
  | (instrs, code) :: rest =>
      let pos' := pos + lengthOf instrs in
      unwindCodesFrom pos' rest ++ code pos'
  end.

(** Modelled from the spec: section 3, the unwind data occupies its header
    and its codes, or one code slot more for alignment: the slots come in
    pairs. *)
Definition unwindInfoByteLength (codes : list UnwindCode) : N :=
  baseUnwindInfoSize + sizeofUnwindCode * roundUpToEven (N.of_nat (length codes)).

(** Modelled from the spec: section 4.1, error conditions.  Construction
    fails (a report goes to the diagnostics stream) when the request
    cannot be encoded: a register beyond the sixteen of a save mask, or a
    frame larger than the 16-bit slot count of a large allocation. *)
Definition new (a : Args) : option t :=
  let l := layout a in
  if (rxxRegisterSaveMask a <? 2 ^ 16) && (xmmRegisterSaveMask a <? 2 ^ 16)
     && (totalSlots l <? 2 ^ 16)
  then
    let steps := prologSteps a l in
    let prolog := concat (map fst steps) in
    let codes := unwindCodesFrom 0 steps in
    Some (mk (frameBytes l) prolog (epilogOf l)
             (mkUnwindInfo 1 0 (lengthOf prolog) (N.of_nat (length codes)) 0 0 codes)
             (unwindInfoByteLength codes))
  else None.

End Encoding.

End FunctionSpecification.

(* ===================================================================== *)
(** ** Running a frame: the registers and the stack *)
(* ===================================================================== *)

(** The part of the processor a prolog and an epilog act on: the sixteen
    64-bit integer registers, the sixteen 128-bit vector registers (as two
    quadwords each) and the memory, read and written a quadword at a
    time. *)
Module Machine.

Record t := mk {
  rxxValue : N -> Z;
  xmmValue : N -> Z * Z;
  memory : Z -> Z
}.

Definition wrap64 (z : Z) : Z := (z mod 2 ^ 64)%Z.

Definition rspValue (m : t) : Z := rxxValue m 4.

Definition setRxx (id : N) (v : Z) (m : t) : t :=
  mk (<[id := v]> (rxxValue m)) (xmmValue m) (memory m).

Definition setXmm (id : N) (v : Z * Z) (m : t) : t :=
  mk (rxxValue m) (<[id := v]> (xmmValue m)) (memory m).

Definition store (address v : Z) (m : t) : t :=
  mk (rxxValue m) (xmmValue m) (<[address := v]> (memory m)).

Definition address (m : t) (base : N) (offset : Z) : Z :=
  wrap64 (rxxValue m base + offset).

(** One instruction.  A 128-bit aligned move faults unless its address is
    a multiple of 16; the forms no frame uses are not given a meaning. *)
Definition step (i : FrameInstr) (m : t) : option t :=
  match i with
  | FImmediate OpCode.Sub (Rxx d) v =>
      Some (setRxx d (wrap64 (rxxValue m d - v)) m)
  | FImmediate OpCode.Add (Rxx d) v =>
      Some (setRxx d (wrap64 (rxxValue m d + v)) m)
  | FStore OpCode.Mov (Rxx b) off (Rxx s) =>
      Some (store (address m b off) (rxxValue m s) m)
  | FStore OpCode.MovAligned128 (Rxx b) off (Xmm x) =>
      let a := address m b off in
      if (a mod 16 =? 0)%Z
      then Some (store (wrap64 (a + 8)) (xmmValue m x).2
                       (store a (xmmValue m x).1 m))
      else None
  | FLoad OpCode.Mov (Rxx d) (Rxx b) off =>
      Some (setRxx d (memory m (address m b off)) m)
  | FLoad OpCode.MovAligned128 (Xmm x) (Rxx b) off =>
      let a := address m b off in
      if (a mod 16 =? 0)%Z
      then Some (setXmm x (memory m a, memory m (wrap64 (a + 8))) m)
      else None
  | FLoad OpCode.Lea (Rxx d) (Rxx b) off =>
      Some (setRxx d (address m b off) m)
  | _ => None
  end.

(** Straight-line execution up to the return: the state in which [ret]
    hands control back is the result. *)
Fixpoint run (instrs : list FrameInstr) (m : t) : option t :=
  match instrs with
  | [] => Some m
  | FRet :: _ => Some m
  | i :: rest =>
      match step i m with
      | Some m' => run rest m'
      | None => None
      end
  end.

(** A call of a generated function: prolog, body, epilog. *)
Definition call (spec : FunctionSpecification.t) (body : t -> t) (m : t) : option t :=
  match run (FunctionSpecification.GetProlog spec) m with
  | Some m1 => run (FunctionSpecification.GetEpilog spec) (body m1)
  | None => None
  end.

(** The address of a frame slot, counted from the stack pointer [base]
    the prolog has set. *)
Definition slotAddress (base : Z) (slot : N) : Z :=
  wrap64 (base + FunctionSpecification.slotOffset slot).

(** What is asked of a body run from [m1]: it may overwrite any register
    and any memory outside the save area of the frame, and hands the stack
    pointer back as it found it. *)
Definition keepsFrame (l : FunctionSpecification.Layout) (body : t -> t) (m1 : t) : Prop :=
  rspValue (body m1) = rspValue m1
  /\ forall slot, slot ∈ FunctionSpecification.saveArea l ->
       memory (body m1) (slotAddress (rspValue m1) slot)
       = memory m1 (slotAddress (rspValue m1) slot).

(** A saved register with its slot, the instructions that save and
    restore it, and the two quadwords it holds (the second is unused for
    an integer register). *)
Definition Save : Type := FrameRegister * N.

Definition moveOf (r : FrameRegister) : OpCode.t :=
  match r with Rxx _ => OpCode.Mov | Xmm _ => OpCode.MovAligned128 end.

Definition saveInstr (save : Save) : FrameInstr :=
  FStore (moveOf save.1) rsp (FunctionSpecification.slotOffset save.2) save.1.

Definition restoreInstr (save : Save) : FrameInstr :=
  FLoad (moveOf save.1) save.1 rsp (FunctionSpecification.slotOffset save.2).

Definition width (r : FrameRegister) : N :=
  match r with Rxx _ => 1 | Xmm _ => 2 end.

Definition registerValue (m : t) (r : FrameRegister) : Z * Z :=
  match r with
  | Rxx id => (rxxValue m id, 0%Z)
  | Xmm id => xmmValue m id
  end.

Definition slotValue (m : t) (base : Z) (save : Save) : Z * Z :=
  match save.1 with
  | Rxx _ => (memory m (slotAddress base save.2), 0%Z)
  | Xmm _ => (memory m (slotAddress base save.2),
              memory m (slotAddress base (save.2 + 1)))
  end.

Definition savesOf (l : FunctionSpecification.Layout) : list Save :=
  map (fun s => (Rxx s.1, s.2)) (FunctionSpecification.rxxSaves l)
  ++ map (fun s => (Xmm s.1, s.2)) (FunctionSpecification.xmmSaves l).

(** The saves occupy increasing, disjoint slots between [lo] and [hi],
    the vector ones on even slots. *)
Fixpoint placed (lo hi : N) (saves : list Save) : Prop :=
  match saves with
  | [] => lo <= hi
  | (r, slot) :: rest =>
      lo <= slot
      /\ (match r with Rxx _ => True | Xmm _ => N.even slot = true end)
      /\ placed (slot + width r) hi rest
  end.

End Machine.

(** A frame to run: one call argument, two locals, RBX and R12 and
    XMM10 and XMM11 saved, the base register set; a caller's registers;
    and a body that fills every register but the stack pointer with
    garbage, like [FillAllWritableRegistersWithGarbage]. *)
Module SampleFrame.

Definition encodedLength (i : FrameInstr) : N :=
  match i with
  | FImmediate _ _ _ => 7
  | FStore _ _ _ _ => 9
  | FLoad _ _ _ _ => 8
  | FRet => 1
  end.

Definition args : FunctionSpecification.Args :=
  FunctionSpecification.mkArgs 1 2
    (N.lor (N.shiftl 1 3) (N.shiftl 1 12))
    (N.lor (N.shiftl 1 10) (N.shiftl 1 11))
    FunctionSpecification.SetRbpToOriginalRsp.

Definition caller : Machine.t :=
  Machine.mk (fun id => if id =? 4 then 32760%Z else (1000 + Z.of_N id)%Z)
             (fun id => (Z.of_N id, 77%Z))
             (fun _ => 0%Z).

Definition garbage (m : Machine.t) : Machine.t :=
  Machine.mk (fun id => if id =? 4 then Machine.rxxValue m 4 else 57005%Z)
             (fun _ => (48879%Z, 0%Z))
             (Machine.memory m).

End SampleFrame.

(* ===================================================================== *)
(** ** The register tests of [FunctionBufferUnitTest.cpp] *)
(* ===================================================================== *)

(** The two operations of [BitOp.h] the tests call.  The header is not
    under [src/], and a test only relies on their signatures:
    [GetLowestBitSet(mask, &id)] answers whether the mask has a bit and
    hands the id of one out, [ClearBit(&mask, id)] changes the mask. *)
Class BitOps := {
  GetLowestBitSet : N -> option N;
  ClearBit : N -> N -> N
}.

(** What the names of the two operations promise: a mask without a bit to
    hand out is empty, the bit handed out is a bit of the mask, and
    clearing a bit takes that bit away and no other. *)
Record BitOpsContract `{BitOps} : Prop := {
  lowest_none : forall mask, GetLowestBitSet mask = None -> mask = 0;
  lowest_set : forall mask id,
    GetLowestBitSet mask = Some id -> N.testbit mask id = true;
  clear_bit : forall mask id j,
    N.testbit (ClearBit mask id) j = N.testbit mask j && negb (j =? id)
}.

(** The operations on binary numbers, to run the tests with. *)
Module BinaryBitOps.

Fixpoint lowest (p : positive) : N :=
  match p with
  | xO p' => N.succ (lowest p')
  | _ => 0
  end.

#[export] Instance ops : BitOps := {|
  GetLowestBitSet := fun mask =>
    match mask with
    | N0 => None
    | Npos p => Some (lowest p)
    end;
  ClearBit := N.clearbit
|}.

End BinaryBitOps.

Definition rax : FrameRegister := Rxx 0.

(** The calls [FillAllWritableRegistersWithGarbage] makes on the
    [FunctionBuffer]: [EmitImmediate<OpCode::Mov>(Register<8, false>(id),
    value)] and [Emit<OpCode::Mov>(Register<8, true>(id), Register<8,
    false>(source))]. *)
Inductive BodyInstr :=
| MovImmediate (dest : N) (value : Z)
| MovToXmm (dest : N) (source : N).

(** [RegInfo]: the two arrays of 64-bit values, [m_xmm] with two entries
    for each vector register and [m_rxx] with one for each integer
    register.  An index is a register id, below 16 for the masks of the
    tests; the arrays are read as functions of the index. *)
Record RegInfo := mkRegInfo {
  m_xmm : N -> Z;
  m_rxx : N -> Z
}.

Module RegisterTests.
Section Tests.
Context `{BitOps}.

(** The loop of the tests over the registers of a mask,

      [while (BitOp::GetLowestBitSet(regMask, &regId))
         { body(regId); BitOp::ClearBit(&regMask, regId); }]

    on the state [st] the body acts on.  [fuel] bounds the rounds; the
    loop yields nothing when they do not suffice. *)
Fixpoint forEachRegister {St : Type} (fuel : nat) (regMask : N)
         (body : N -> St -> St) (st : St) : option St :=
  match GetLowestBitSet regMask with
  | None => Some st
  | Some regId =>
      match fuel with
      | O => None
      | S fuel' =>
          forEachRegister fuel' (ClearBit regMask regId) body (body regId st)
      end
  end.

(** The bits of a mask, which is an [unsigned] of 32 bits, lowest
    first. *)
Definition bitsOf (mask : N) : list N :=
  filter (fun id => N.testbit mask id = true) (map N.of_nat (seq 0 32)).

(** [FillAllWritableRegistersWithGarbage] (lines 71-99).  The state is the
    code emitted so far and the number of values drawn from the random
    generator, whose [n]-th value is [m_uniformUInt64 n]; the two masks
    are those of [CallingConvention.h], which is not under [src/]; RSP is
    register 4, RAX register 0, and [c_maxIntegerRegisterID] is 15, for
    the sixteen integer registers.  The assertion is taken as fatal: when
    it fails the function returns having emitted nothing. *)
Definition FillAllWritableRegistersWithGarbage (fuel : nat)
           (c_rxxWritableRegistersMask c_xmmWritableRegistersMask : N)
           (m_uniformUInt64 : N -> Z) (code : list BodyInstr * N)
  : option (string + list BodyInstr * N) :=
  let regMask := N.ldiff c_rxxWritableRegistersMask (N.shiftl 1 4) in
  if N.land regMask (N.shiftl 1 0) =? 0
  then Some (inl "This test assumes RAX is writable"%string)
  else
    match forEachRegister fuel regMask
            (fun regId code =>
               (code.1 ++ [MovImmediate regId (m_uniformUInt64 code.2)], code.2 + 1))
            code with
    | None => None
    | Some code =>
        match forEachRegister fuel c_xmmWritableRegistersMask
                (fun regId code =>
                   let someRxxRegister := regId mod (15 + 1) in
                   (code.1 ++ [MovToXmm regId someRxxRegister], code.2))
                code with
        | None => None
        | Some code => Some (inr code)
        end
    end.

(** The addresses [&regInfo.m_xmm[index]] and [&regInfo.m_rxx[index]] of
    a [RegInfo] at [regInfo]: [m_xmm], the first member, has two 64-bit
    entries for each of the sixteen vector registers, and [m_rxx] follows
    it. *)
Definition addressOf_m_xmm (regInfo : Z) (index : N) : Z :=
  (regInfo + 8 * Z.of_N index)%Z.

Definition addressOf_m_rxx (regInfo : Z) (index : N) : Z :=
  (regInfo + 8 * (2 * 16) + 8 * Z.of_N index)%Z.

(** [EmitSaveNonvolatilesCode] (lines 118-153), on the code emitted so
    far; the function it emits is what it appends.  [LogThrowAssert]
    throws when its condition fails. *)
Definition EmitSaveNonvolatilesCode (fuel : nat)
           (c_rxxWritableNonvolatilesMask c_xmmWritableNonvolatilesMask : N)
           (regInfo : Z) (code : list FrameInstr)
  : option (Outcome (list FrameInstr)) :=
  let regMask := c_rxxWritableNonvolatilesMask in
  if negb (N.land regMask (N.shiftl 1 0) =? 0)
  then Some (Thrown (ThrowOther "This test assumes RAX is volatile"))
  else
    match forEachRegister fuel regMask
            (fun regId code =>
               code ++ [FImmediate OpCode.Mov rax (addressOf_m_rxx regInfo regId);
                        FStore OpCode.Mov rax 0 (Rxx regId)])
            code with
    | None => None
    | Some code =>
        match forEachRegister fuel c_xmmWritableNonvolatilesMask
                (fun regId code =>
                   code ++ [FImmediate OpCode.Mov rax
                              (addressOf_m_xmm regInfo (2 * regId));
                            FStore OpCode.MovAligned128 rax 0 (Xmm regId)])
                code with
        | None => None
        | Some code => Some (Return (code ++ [FRet]))
        end
    end.

(** [TestEqual(expected, actual, ...)] notes a failure, here under the
    name of the register, and the test goes on. *)
Definition TestEqual (expected actual : Z) (name : FrameRegister)
           (failures : list FrameRegister) : list FrameRegister :=
  if (expected =? actual)%Z then failures else failures ++ [name].

(** The comparison that ends [RegisterPreservation] (lines 589-615), with
    the additions on 64-bit values. *)
Definition compareNonvolatiles (fuel : nat)
           (c_rxxWritableNonvolatilesMask c_xmmWritableNonvolatilesMask : N)
           (before after : RegInfo) : option (list FrameRegister) :=
  match forEachRegister fuel c_rxxWritableNonvolatilesMask
          (fun regId failures =>
             TestEqual (m_rxx before regId) (m_rxx after regId) (Rxx regId) failures)
          [] with
  | None => None
  | Some failures =>
      forEachRegister fuel c_xmmWritableNonvolatilesMask
        (fun regId failures =>
           TestEqual (Machine.wrap64 (m_xmm before (2 * regId) + 1))
                     (Machine.wrap64 (m_xmm after (2 * regId) + 1))
                     (Xmm regId)
             (TestEqual (m_xmm before (2 * regId)) (m_xmm after (2 * regId))
                        (Xmm regId) failures))
        failures
  end.

End Tests.

(** What the instructions of the garbage do to the machine: a 64-bit
    immediate goes into an integer register; a move from an integer
    register into a vector register sets its low quadword and zeroes the
    high one (the source notes that the upper 64 bits are zeroed). *)
Definition exec (i : BodyInstr) (m : Machine.t) : Machine.t :=
  match i with
  | MovImmediate dest value => Machine.setRxx dest (Machine.wrap64 value) m
  | MovToXmm dest source =>
      Machine.setXmm dest (Machine.rxxValue m source, 0%Z) m
  end.

Definition execAll (code : list BodyInstr) (m : Machine.t) : Machine.t :=
  foldl (fun m i => exec i m) m code.

(** The instructions of the code that saves the registers: those of a
    frame, and the move of a 64-bit immediate into an integer register. *)
Definition step (i : FrameInstr) (m : Machine.t) : option Machine.t :=
  match i with
  | FImmediate OpCode.Mov (Rxx dest) value =>
      Some (Machine.setRxx dest (Machine.wrap64 value) m)
  | _ => Machine.step i m
  end.

Fixpoint run (instrs : list FrameInstr) (m : Machine.t) : option Machine.t :=
  match instrs with
  | [] => Some m
  | FRet :: _ => Some m
  | i :: rest =>
      match step i m with
      | Some m' => run rest m'
      | None => None
      end
  end.

(** The [RegInfo] at [regInfo] as the memory holds it. *)
Definition snapshot (m : Machine.t) (regInfo : Z) : RegInfo :=
  mkRegInfo (fun index => Machine.memory m (addressOf_m_xmm regInfo index))
            (fun index => Machine.memory m (addressOf_m_rxx regInfo index)).

End RegisterTests.

(** Masks and snapshots to run the register tests on: RBX, RSI and R12
    and XMM6 and XMM10 as the nonvolatile registers; every integer
    register but R15 and the first twelve vector registers as the writable
    ones; two snapshots that differ in the upper quadwords of the vector
    registers only, and a third one that differs in RSI. *)
Module SampleRegisters.

Definition rxxNonvolatiles : N :=
  N.lor (N.shiftl 1 3) (N.lor (N.shiftl 1 6) (N.shiftl 1 12)).

Definition xmmNonvolatiles : N := N.lor (N.shiftl 1 6) (N.shiftl 1 10).

Definition rxxWritable : N := N.ones 15.
Definition xmmWritable : N := N.ones 12.

Definition m_uniformUInt64 (n : N) : Z := (57005 + Z.of_N n)%Z.

Definition before : RegInfo :=
  mkRegInfo (fun index => (100 + Z.of_N index)%Z) (fun index => (1000 + Z.of_N index)%Z).

Definition after : RegInfo :=
  mkRegInfo (fun index => if N.even index then (100 + Z.of_N index)%Z else 7%Z)
            (fun index => (1000 + Z.of_N index)%Z).

Definition clobbered : RegInfo :=
  mkRegInfo (m_xmm before)
            (fun index => if index =? 6 then 0%Z else (1000 + Z.of_N index)%Z).

End SampleRegisters.

(* ===================================================================== *)
(** * Properties of the node classes *)
(* ===================================================================== *)

Section MonadFacts.
Context {Alloc : Type}.
Implicit Types s : ExpressionTree Alloc.

Lemma bind_returns {A B} (m : M Alloc A) (k : A -> M Alloc B) s a s' :
  m s = (Return a, s') -> bind m k s = k a s'.
Proof. intros E. unfold bind. now rewrite E. Qed.

Lemma bind_throws {A B} (m : M Alloc A) (k : A -> M Alloc B) s e s' :
  m s = (Thrown e, s') -> bind m k s = (Thrown e, s').
Proof. intros E. unfold bind. now rewrite E. Qed.

Lemma AllocateLabel_run s : AllocateLabel s = (Return (nextLabel s), labelled s).
Proof. reflexivity. Qed.

Lemma emit_run i s : emit i s = (Return tt, emitting [i] s).
Proof. reflexivity. Qed.

Lemma emitted_emitting instrs s : emitted (emitting instrs s) = emitted s ++ instrs.
Proof. reflexivity. Qed.

Lemma emitted_labelled s : emitted (labelled s) = emitted s.
Proof. reflexivity. Qed.

Lemma emitting_emitting is1 is2 s :
  emitting is2 (emitting is1 s) = emitting (is1 ++ is2) s.
Proof. unfold emitting, withCode. simpl. now rewrite <- app_assoc. Qed.

Lemma emitting_nil s : emitting [] s = s.
Proof.
  destruct s as [[code n] nodes alloc]. unfold emitting, withCode. simpl.
  now rewrite app_nil_r.
Qed.

Lemma m_alloc_emitting instrs s : m_alloc (emitting instrs s) = m_alloc s.
Proof. reflexivity. Qed.

End MonadFacts.

(** Advance a run by one call whose outcome is known. *)
Ltac run_known H :=
  erewrite bind_returns by (exact H).

Ltac run_own :=
  first
    [ erewrite bind_returns by (apply AllocateLabel_run)
    | erewrite bind_returns by (apply emit_run) ].

Section ConditionalNodeFacts.
Context {Alloc : Type} `{!TreeOps Alloc}.
Implicit Types s : ExpressionTree Alloc.

Lemma unifyingMove_run rFalse rTrue s :
  (if negb (IsSameHardwareRegister rTrue rFalse)
   then emit (Emit OpCode.Mov rFalse rTrue)
   else ret tt) s = (Return tt, emitting (unifyingMove rFalse rTrue) s).
Proof.
  unfold unifyingMove. destruct (IsSameHardwareRegister rTrue rFalse); simpl.
  - unfold ret. now rewrite emitting_nil.
  - apply emit_run.
Qed.


End ConditionalNodeFacts.

Section NodeStateFacts.
Context {Alloc : Type}.
Implicit Types s : ExpressionTree Alloc.

Lemma nodeAt_withNode_same s n f :
  (n < length (m_nodes s))%nat -> nodeAt (withNode n f s) n = f (nodeAt s n).
Proof.
  intros Hn. unfold nodeAt, withNode. simpl.
  rewrite list_lookup_alter_eq.
  destruct (m_nodes s !! n) eqn:E; simpl; [reflexivity|].
  apply lookup_ge_None in E. lia.
Qed.

Lemma nodeAt_withNode_other s n k f :
  n <> k -> nodeAt (withNode n f s) k = nodeAt s k.
Proof.
  intros Hne. unfold nodeAt, withNode. simpl.
  now rewrite list_lookup_alter_ne.
Qed.

Lemma cached_in_tree s n c :
  m_cache (nodeAt s n) = Some c -> (n < length (m_nodes s))%nat.
Proof.
  unfold nodeAt. intros Hc. apply lookup_lt_is_Some.
  destruct (m_nodes s !! n); [eauto | discriminate].
Qed.

End NodeStateFacts.

Section RelationalOperatorNodeFacts.
Context {Alloc : Type} `{!TreeOps Alloc}.
Implicit Types s : ExpressionTree Alloc.
Implicit Types this : RelationalOperatorNode.t Alloc.

Lemma leftGoesFirst_geb (l r : N) : leftGoesFirst l r = (r <=? l).
Proof.
  unfold leftGoesFirst.
  destruct (N.ltb_spec r l), (N.eqb_spec l r), (N.leb_spec r l);
    simpl; try reflexivity; lia.
Qed.

(** The comparison of an uncached node, with the operand that goes first
    and the one that goes second made explicit. *)
Lemma CodeGenFlags_not_cached this s0 s1 s2 s3
    (c1 c2 cDirect : list Instr) (v1 v2 : Storage) (direct : Register) :
  let left := RelationalOperatorNode.m_left this in
  let right := RelationalOperatorNode.m_right this in
  let leftFirst :=
    leftGoesFirst (registerCount (Node.GetId left) s0)
                  (registerCount (Node.GetId right) s0) in
  let sLeft := if leftFirst then v1 else v2 in
  let sRight := if leftFirst then v2 else v1 in
  IsCached (RelationalOperatorNode.self this) s0 = false ->
  generates (Node.CodeGen (if leftFirst then left else right)) s0 c1 v1 s1 ->
  generates (Node.CodeGen (if leftFirst then right else left)) s1 c2 v2 s2 ->
  generates (ConvertToDirect sLeft false) s2 cDirect direct s3 ->
  generates (RelationalOperatorNode.CodeGenFlags this) s0
            (c1 ++ c2 ++ cDirect ++ [EmitFromStorage OpCode.Cmp direct sRight])
            tt
            (emitting [EmitFromStorage OpCode.Cmp direct sRight] s3).
Proof.
  intros left right leftFirst sLeft sRight Hcached [H1 C1] [H2 C2] [H3 C3].
  split.
  - unfold RelationalOperatorNode.CodeGenFlags. rewrite Hcached.
    subst sLeft sRight. revert H1 H2 H3. subst leftFirst.
    rewrite leftGoesFirst_geb. fold left right.
    destruct (_ <=? _); intros H1 H2 H3.
    + erewrite bind_returns; cycle 1.
      { run_known H1. run_known H2. reflexivity. }
      simpl fst. simpl snd. run_known H3. apply emit_run.
    + erewrite bind_returns; cycle 1.
      { run_known H1. run_known H2. reflexivity. }
      simpl fst. simpl snd. run_known H3. apply emit_run.
  - rewrite emitted_emitting, C3, C2, C1.
    repeat rewrite <- app_assoc. reflexivity.
Qed.

(** C4. For a node whose result is not cached, [CodeGenFlags] evaluates
    first the operand whose subtree was labelled with the higher register
    count and then the other one, the left operand first when the counts
    are equal: the second operand's code is generated from the tree the
    first one left, and follows it in the buffer. *)
Theorem RelationalOperatorNode_CodeGenFlags_order this s0 s1 s2 s3
    (first second : Node.t Alloc)
    (cFirst cSecond cDirect : list Instr) (vFirst vSecond : Storage)
    (direct : Register) :
  let left := RelationalOperatorNode.m_left this in
  let right := RelationalOperatorNode.m_right this in
  let l := registerCount (Node.GetId left) s0 in
  let r := registerCount (Node.GetId right) s0 in
  IsCached (RelationalOperatorNode.self this) s0 = false ->
  (r < l /\ first = left /\ second = right
   \/ l < r /\ first = right /\ second = left
   \/ l = r /\ first = left /\ second = right) ->
  generates (Node.CodeGen first) s0 cFirst vFirst s1 ->
  generates (Node.CodeGen second) s1 cSecond vSecond s2 ->
  generates (ConvertToDirect (if r <=? l then vFirst else vSecond) false)
            s2 cDirect direct s3 ->
  let compare :=
    EmitFromStorage OpCode.Cmp direct (if r <=? l then vSecond else vFirst) in
  generates (RelationalOperatorNode.CodeGenFlags this) s0
            (cFirst ++ cSecond ++ cDirect ++ [compare])
            tt (emitting [compare] s3).
Proof.
  intros left right l r Hcached Horder H1 H2 H3 compare. subst compare.
  pose proof (CodeGenFlags_not_cached this s0 s1 s2 s3 cFirst cSecond cDirect
                vFirst vSecond direct) as Hrun.
  cbv zeta in Hrun. fold left right in Hrun. fold l r in Hrun.
  rewrite leftGoesFirst_geb in Hrun.
  destruct Horder as [(Hlt & -> & ->) | [(Hlt & -> & ->) | (Heq & -> & ->)]];
    destruct (N.leb_spec r l); try lia; apply Hrun; assumption.
Qed.

(** If the operand that goes first throws, the other one is not
    evaluated at all. *)
Lemma CodeGenFlags_first_throws this s0 s1 e :
  let left := RelationalOperatorNode.m_left this in
  let right := RelationalOperatorNode.m_right this in
  IsCached (RelationalOperatorNode.self this) s0 = false ->
  Node.CodeGen (if leftGoesFirst (registerCount (Node.GetId left) s0)
                                 (registerCount (Node.GetId right) s0)
                then left else right) s0 = (Thrown e, s1) ->
  RelationalOperatorNode.CodeGenFlags this s0 = (Thrown e, s1).
Proof.
  intros left right Hcached. rewrite leftGoesFirst_geb.
  unfold RelationalOperatorNode.CodeGenFlags. rewrite Hcached.
  fold left right. destruct (_ <=? _); intros H1.
  - erewrite bind_throws; [reflexivity|]. erewrite bind_throws; [reflexivity|exact H1].
  - erewrite bind_throws; [reflexivity|]. erewrite bind_throws; [reflexivity|exact H1].
Qed.

(** C2 (as amended). For a node whose result is not cached,
    [RelationalOperatorNode::CodeGenValue] yields a register holding 0 or
    1: both operands are evaluated, the one with the higher register
    count first; one compare instruction follows; the result register is
    allocated next, before the conditional jump; then come, in this order,
    the jump on the node's [JCC] to the condition-true label, the move of 0
    into the result register, the jump to the completion label, the
    condition-true label, the move of 1 into the same register, and the
    completion label. *)
Theorem RelationalOperatorNode_CodeGenValue_pattern this s0 s1 s2 s3 s4
    (c1 c2 cDirect cResult : list Instr) (v1 v2 result : Storage)
    (direct reg : Register) :
  let left := RelationalOperatorNode.m_left this in
  let right := RelationalOperatorNode.m_right this in
  let leftFirst :=
    leftGoesFirst (registerCount (Node.GetId left) s0)
                  (registerCount (Node.GetId right) s0) in
  let sLeft := if leftFirst then v1 else v2 in
  let sRight := if leftFirst then v2 else v1 in
  let compare := EmitFromStorage OpCode.Cmp direct sRight in
  let pattern :=
    booleanPattern (RelationalOperatorNode.JCC this) reg
                   (nextLabel s0) (S (nextLabel s0)) in
  IsCached (RelationalOperatorNode.self this) s0 = false ->
  generates (Node.CodeGen (if leftFirst then left else right))
            (labelled (labelled s0)) c1 v1 s1 ->
  generates (Node.CodeGen (if leftFirst then right else left)) s1 c2 v2 s2 ->
  generates (ConvertToDirect sLeft false) s2 cDirect direct s3 ->
  generates Direct (emitting [compare] s3) cResult result s4 ->
  GetDirectRegister result (m_alloc s4) = Return reg ->
  generates (RelationalOperatorNode.CodeGenValue this) s0
            (c1 ++ c2 ++ cDirect ++ [compare] ++ cResult ++ pattern)
            result
            (emitting pattern s4).
Proof.
  intros left right leftFirst sLeft sRight compare pattern
         Hcached H1 H2 H3 [H4 C4] Hreg.
  assert (Hflags :
    generates (RelationalOperatorNode.CodeGenFlags this) (labelled (labelled s0))
              (c1 ++ c2 ++ cDirect ++ [compare]) tt (emitting [compare] s3)).
  { apply (CodeGenFlags_not_cached this (labelled (labelled s0)) s1 s2 s3
             c1 c2 cDirect v1 v2 direct); assumption. }
  destruct Hflags as [Hflags Cflags].
  assert (Hget : forall instrs,
    getDirectRegister result (emitting instrs s4) = (Return reg, emitting instrs s4)).
  { intros instrs. unfold getDirectRegister.
    now rewrite m_alloc_emitting, Hreg. }
  split.
  - unfold RelationalOperatorNode.CodeGenValue.
    run_own. run_own. run_known Hflags. run_known H4. run_own.
    erewrite bind_returns by (apply Hget). run_own. run_own. run_own.
    repeat rewrite emitting_emitting.
    erewrite bind_returns by (apply Hget). run_own. run_own.
    repeat rewrite emitting_emitting. reflexivity.
  - rewrite emitted_emitting, C4, Cflags.
    rewrite !emitted_labelled. repeat rewrite <- app_assoc. reflexivity.
Qed.

(** C3. When the result is cached, [CodeGenFlags] does not complete: it
    takes the cached storage, releases the cache, emits the [Or] of the
    cached register with itself, and throws the integer 0.  Neither
    operand is evaluated and no compare is emitted, and what is emitted
    does not depend on the node's condition code.  The cache is released
    whether or not the register could be read. *)
Theorem RelationalOperatorNode_CodeGenFlags_cached this s (cached : Storage) :
  m_cache (nodeAt s (RelationalOperatorNode.self this)) = Some cached ->
  let self := RelationalOperatorNode.self this in
  let released := withNode self releaseCache s in
  IsCached self s = true
  /\ (forall outcome s',
        RelationalOperatorNode.CodeGenFlags this s = (outcome, s') ->
        (exists e, outcome = Thrown e)
        /\ IsCached self s' = false
        /\ m_alloc s' = m_alloc s)
  /\ (forall direct,
        GetDirectRegister cached (m_alloc s) = Return direct ->
        RelationalOperatorNode.CodeGenFlags this s
        = (Thrown (ThrowInt 0), emitting [Emit OpCode.Or direct direct] released))
  /\ (forall jcc left right,
        RelationalOperatorNode.CodeGenFlags
          (RelationalOperatorNode.mk jcc self left right) s
        = RelationalOperatorNode.CodeGenFlags this s).
Proof.
  intros Hcache self released.
  assert (Hcached : IsCached self s = true).
  { unfold IsCached. fold self in Hcache. now rewrite Hcache. }
  assert (Hin := cached_in_tree _ _ _ Hcache).
  assert (Hrel : IsCached self released = false).
  { unfold IsCached, released. now rewrite nodeAt_withNode_same. }
  assert (Hrun : forall jcc left right,
    RelationalOperatorNode.CodeGenFlags
      (RelationalOperatorNode.mk jcc self left right) s
    = match GetDirectRegister cached (m_alloc s) with
      | Return direct =>
          (Thrown (ThrowInt 0), emitting [Emit OpCode.Or direct direct] released)
      | Thrown e => (Thrown e, released)
      end).
  { intros jcc left right. unfold RelationalOperatorNode.CodeGenFlags.
    simpl RelationalOperatorNode.self. rewrite Hcached.
    unfold bind at 1. unfold GetCache. fold self in Hcache. rewrite Hcache.
    unfold bind at 1. unfold ReleaseCache. fold released.
    unfold bind at 1. unfold getDirectRegister.
    change (m_alloc released) with (m_alloc s).
    destruct (GetDirectRegister cached (m_alloc s)); [|reflexivity].
    unfold bind, emit, throw. reflexivity. }
  assert (Hthis : this = RelationalOperatorNode.mk
                           (RelationalOperatorNode.JCC this) self
                           (RelationalOperatorNode.m_left this)
                           (RelationalOperatorNode.m_right this)).
  { now destruct this. }
  repeat split.
  - exact Hcached.
  - rewrite Hthis, Hrun in H.
    destruct (GetDirectRegister cached (m_alloc s)); inversion H; eauto.
  - rewrite Hthis, Hrun in H.
    destruct (GetDirectRegister cached (m_alloc s)); inversion H; subst;
      [exact Hrel | exact Hrel].
  - rewrite Hthis, Hrun in H.
    destruct (GetDirectRegister cached (m_alloc s)); inversion H; reflexivity.
  - intros direct Hdirect. rewrite Hthis, Hrun, Hdirect. reflexivity.
  - intros jcc left right. rewrite (Hrun jcc left right).
    rewrite Hthis at 1. now rewrite Hrun.
Qed.

End RelationalOperatorNodeFacts.

Section ConstructionAndLabelling.
Context {Alloc : Type} `{!TreeOps Alloc}.
Implicit Types s : ExpressionTree Alloc.


Lemma nodeAt_new_node s code (alloc : Alloc) n :
  (n < length (m_nodes s))%nat ->
  nodeAt (mkTree code (m_nodes s ++ [emptyNode]) alloc) n = nodeAt s n.
Proof.
  intros Hn. unfold nodeAt. simpl. now rewrite lookup_app_l.
Qed.

Lemma GetParentCount_increment s n k :
  (k < length (m_nodes s))%nat ->
  GetParentCount k (withNode n incrementParentCount s)
  = GetParentCount k s + (if decide (n = k) then 1 else 0).
Proof.
  intros Hk. unfold GetParentCount. destruct (decide (n = k)) as [->|Hne].
  - rewrite nodeAt_withNode_same by exact Hk. reflexivity.
  - rewrite nodeAt_withNode_other by exact Hne. lia.
Qed.

Lemma RelationalOperatorNode_new_run jcc (left right : Node.t Alloc) s :
  RelationalOperatorNode.new jcc left right s
  = (Return (RelationalOperatorNode.mk jcc (length (m_nodes s)) left right),
     withNode (Node.GetId right) incrementParentCount
       (withNode (Node.GetId left) incrementParentCount
          (mkTree (m_code s) (m_nodes s ++ [emptyNode]) (m_alloc s)))).
Proof. reflexivity. Qed.

Lemma ConditionalNode_new_run jcc condition (t f : Node.t Alloc) s :
  ConditionalNode.new jcc condition t f s
  = (Return (ConditionalNode.mk jcc (length (m_nodes s)) condition t f),
     mkTree (m_code s) (m_nodes s ++ [emptyNode]) (m_alloc s)).
Proof. reflexivity. Qed.

(** The general rule: a node gains one parent for each operand reference
    that designates it. *)
Lemma parent_count_after_RelationalOperatorNode_new s (n : NodeId) jcc
    (left right : Node.t Alloc) :
  (n < length (m_nodes s))%nat ->
  GetParentCount n (RelationalOperatorNode.new jcc left right s).2
  = GetParentCount n s + references n left + references n right.
Proof.
  intros Hn. rewrite RelationalOperatorNode_new_run. simpl snd.
  unfold references.
  rewrite GetParentCount_increment; cycle 1.
  { unfold withNode. simpl. rewrite length_alter, length_app. simpl. lia. }
  rewrite GetParentCount_increment; cycle 1.
  { simpl. rewrite length_app. simpl. lia. }
  unfold GetParentCount at 1. now rewrite nodeAt_new_node.
Qed.

Lemma parent_count_after_ConditionalNode_new s (n : NodeId) jcc condition
    (trueExpression falseExpression : Node.t Alloc) :
  (n < length (m_nodes s))%nat ->
  GetParentCount n
    (ConditionalNode.new jcc condition trueExpression falseExpression s).2
  = GetParentCount n s.
Proof.
  intros Hn. rewrite ConditionalNode_new_run. simpl snd.
  unfold GetParentCount. now rewrite nodeAt_new_node.
Qed.

(** C10 (as amended). The constructor of [RelationalOperatorNode] adds
    one to the parent count of a node for each of its two operand
    references, left and right, that designates it: exactly one for each
    of two distinct operand nodes, two for a node passed as both operands.
    The constructor of [ConditionalNode] leaves the parent counts of its
    condition, of its true expression and of its false expression
    unchanged.  (The nodes are nodes of the tree.) *)
Theorem parent_counts_after_construction s jcc
    (left right : Node.t Alloc) (condition : FlagExpressionNode.t Alloc)
    (trueExpression falseExpression : Node.t Alloc) :
  let inTree (node : Node.t Alloc) := (Node.GetId node < length (m_nodes s))%nat in
  let relational := (RelationalOperatorNode.new jcc left right s).2 in
  let conditional :=
    (ConditionalNode.new jcc condition trueExpression falseExpression s).2 in
  let unchanged (node : Node.t Alloc) :=
    GetParentCount (Node.GetId node) conditional
    = GetParentCount (Node.GetId node) s in
  let shared : N := if decide (Node.GetId left = Node.GetId right) then 1 else 0 in
  inTree left -> inTree right ->
  inTree (FlagExpressionNode.base condition) ->
  inTree trueExpression -> inTree falseExpression ->
  (GetParentCount (Node.GetId left) relational
   = GetParentCount (Node.GetId left) s + 1 + shared
   /\ GetParentCount (Node.GetId right) relational
      = GetParentCount (Node.GetId right) s + 1 + shared)
  /\ (unchanged (FlagExpressionNode.base condition)
      /\ unchanged trueExpression
      /\ unchanged falseExpression).
Proof.
  intros inTree relational conditional unchanged shared
         Hleft Hright Hcondition Htrue Hfalse.
  split; [split | repeat split].
  - subst relational shared.
    rewrite parent_count_after_RelationalOperatorNode_new by exact Hleft.
    unfold references. rewrite decide_True by reflexivity.
    destruct (decide (Node.GetId left = Node.GetId right)) as [Heq|Hne].
    + rewrite decide_True by congruence. lia.
    + rewrite decide_False by congruence. lia.
  - subst relational shared.
    rewrite parent_count_after_RelationalOperatorNode_new by exact Hright.
    unfold references. rewrite (decide_True (P := Node.GetId right = Node.GetId right))
      by reflexivity.
    destruct (decide (Node.GetId left = Node.GetId right)) as [Heq|Hne]; lia.
  - apply parent_count_after_ConditionalNode_new, Hcondition.
  - apply parent_count_after_ConditionalNode_new, Htrue.
  - apply parent_count_after_ConditionalNode_new, Hfalse.
Qed.

End ConstructionAndLabelling.

(* ===================================================================== *)
(** * Properties of function frames *)
(* ===================================================================== *)

Section Addresses.
Import Machine.
Local Open Scope Z_scope.

Lemma wrap64_idemp_add z v : wrap64 (wrap64 z + v) = wrap64 (z + v).
Proof. unfold wrap64. apply Zplus_mod_idemp_l. Qed.

Lemma wrap64_small z : 0 <= z < 2 ^ 64 -> wrap64 z = z.
Proof. unfold wrap64. apply Z.mod_small. Qed.

Lemma wrap64_sub_add z v : 0 <= z < 2 ^ 64 -> wrap64 (wrap64 (z - v) + v) = z.
Proof.
  intros Hz. rewrite wrap64_idemp_add. replace (z - v + v) with z by lia.
  now apply wrap64_small.
Qed.

Lemma wrap64_mod16 z : wrap64 z mod 16 = z mod 16.
Proof.
  unfold wrap64. apply Z.mod_mod_divide.
  exists (2 ^ 60). reflexivity.
Qed.

Lemma slotAddress_next base slot :
  wrap64 (slotAddress base slot + 8) = slotAddress base (slot + 1).
Proof.
  unfold slotAddress, FunctionSpecification.slotOffset.
  rewrite wrap64_idemp_add. f_equal. lia.
Qed.

Lemma slotAddress_inj base (j k : N) :
  (j < 2 ^ 60)%N -> (k < 2 ^ 60)%N ->
  slotAddress base j = slotAddress base k -> j = k.
Proof.
  unfold slotAddress, FunctionSpecification.slotOffset, wrap64.
  intros Hj Hk Heq.
  assert (Hdiff : (8 * Z.of_N j - 8 * Z.of_N k) mod 2 ^ 64 = 0).
  { replace (8 * Z.of_N j - 8 * Z.of_N k)
      with ((base + 8 * Z.of_N j) - (base + 8 * Z.of_N k)) by lia.
    rewrite Zminus_mod, Heq, Z.sub_diag. reflexivity. }
  apply Z.mod_divide in Hdiff; [|lia].
  destruct Hdiff as [q Hq].
  assert (q = 0) by lia. lia.
Qed.

Lemma slotAddress_aligned base slot :
  base mod 16 = 0 -> N.even slot = true -> slotAddress base slot mod 16 = 0.
Proof.
  intros Hbase Heven. unfold slotAddress, FunctionSpecification.slotOffset.
  rewrite wrap64_mod16.
  apply N.even_spec in Heven. destruct Heven as [h ->].
  replace (base + 8 * Z.of_N (2 * h)) with (base + Z.of_N h * 16) by lia.
  now rewrite Z.mod_add by lia.
Qed.

Lemma frame_base_aligned entry slots :
  entry mod 16 = 8 -> N.odd slots = true ->
  wrap64 (entry - FunctionSpecification.slotOffset slots) mod 16 = 0.
Proof.
  intros Hentry Hodd. unfold FunctionSpecification.slotOffset.
  rewrite wrap64_mod16.
  apply N.odd_spec in Hodd. destruct Hodd as [h ->].
  replace (entry - 8 * Z.of_N (2 * h + 1))
    with (entry - 8 + (- Z.of_N h) * 16) by lia.
  rewrite Z.mod_add by lia.
  rewrite Zminus_mod, Hentry. reflexivity.
Qed.

End Addresses.

Section MachineRuns.
Import Machine.

Lemma run_cons i rest m :
  i <> FRet ->
  run (i :: rest) m = match step i m with
                      | Some m' => run rest m'
                      | None => None
                      end.
Proof. destruct i; try reflexivity. congruence. Qed.

Lemma run_app instrs1 instrs2 m :
  Forall (fun i => i <> FRet) instrs1 ->
  run (instrs1 ++ instrs2) m = match run instrs1 m with
                               | Some m' => run instrs2 m'
                               | None => None
                               end.
Proof.
  intros Hnoret. revert m. induction Hnoret as [|i rest Hi _ IH]; intros m.
  - reflexivity.
  - simpl app. rewrite !run_cons by exact Hi.
    destruct (step i m); [apply IH | reflexivity].
Qed.

Lemma saveInstr_not_ret save : saveInstr save <> FRet.
Proof. discriminate. Qed.

Lemma restoreInstr_not_ret save : restoreInstr save <> FRet.
Proof. discriminate. Qed.

Lemma placed_le lo hi saves : placed lo hi saves -> lo <= hi.
Proof.
  revert lo. induction saves as [|[r slot] rest IH]; intros lo; simpl.
  - trivial.
  - intros (Hlo & _ & Hrest). apply IH in Hrest.
    destruct r; simpl in Hrest; lia.
Qed.

Lemma placed_weaken lo lo' hi hi' saves :
  lo' <= lo -> hi <= hi' -> placed lo hi saves -> placed lo' hi' saves.
Proof.
  revert lo lo'. induction saves as [|[r slot] rest IH]; intros lo lo' Hlo Hhi; simpl.
  - lia.
  - intros (Hslot & Heven & Hrest). repeat split; [lia | exact Heven |].
    eapply IH; [reflexivity | exact Hhi | exact Hrest].
Qed.

Lemma placed_app lo mid hi saves1 saves2 :
  placed lo mid saves1 -> placed mid hi saves2 -> placed lo hi (saves1 ++ saves2).
Proof.
  revert lo. induction saves1 as [|[r slot] rest IH]; intros lo; simpl.
  - intros Hlo H2. eapply placed_weaken; [exact Hlo | reflexivity | exact H2].
  - intros (Hslot & Heven & Hrest) H2. repeat split; [exact Hslot | exact Heven |].
    now apply IH.
Qed.

(** One save: the register goes to its slot, nothing else moves. *)
Lemma step_save (m : t) base r slot :
  rspValue m = base ->
  (base mod 16 = 0)%Z ->
  match r with Rxx _ => True | Xmm _ => N.even slot = true end ->
  (slot + width r < 2 ^ 60) ->
  exists m',
    step (saveInstr (r, slot)) m = Some m'
    /\ rxxValue m' = rxxValue m
    /\ xmmValue m' = xmmValue m
    /\ slotValue m' base (r, slot) = registerValue m r
    /\ (forall k, k < 2 ^ 60 -> (k < slot \/ slot + width r <= k) ->
          memory m' (slotAddress base k) = memory m (slotAddress base k)).
Proof.
  intros Hbase Haligned Heven Hbound. unfold rspValue in Hbase.
  destruct r as [id|id]; simpl in Hbound.
  - eexists. split; [reflexivity|]. simpl. unfold address. rewrite Hbase.
    fold (slotAddress base slot).
    repeat split.
    + unfold slotValue. simpl. now rewrite fn_lookup_insert.
    + intros k Hk Hout. rewrite fn_lookup_insert_ne; [reflexivity|].
      intros Heq. apply slotAddress_inj in Heq; lia.
  - unfold saveInstr. simpl. unfold address. rewrite Hbase.
    fold (slotAddress base slot).
    rewrite slotAddress_aligned by assumption. simpl.
    rewrite slotAddress_next.
    eexists. split; [reflexivity|]. simpl.
    repeat split.
    + unfold slotValue. simpl.
      rewrite fn_lookup_insert.
      rewrite fn_lookup_insert_ne.
      * rewrite fn_lookup_insert. now destruct (xmmValue m id).
      * intros Heq. apply slotAddress_inj in Heq; lia.
    + intros k Hk Hout.
      rewrite !fn_lookup_insert_ne; [reflexivity | |];
        intros Heq; apply slotAddress_inj in Heq; lia.
Qed.

(** The saves of a prolog: every register reaches its slot and stays
    there; the registers and the slots below the first save are as
    before. *)
Lemma saves_run saves : forall lo hi (m : t) base,
  rspValue m = base ->
  (base mod 16 = 0)%Z ->
  placed lo hi saves ->
  hi < 2 ^ 60 ->
  exists m',
    run (map saveInstr saves) m = Some m'
    /\ rxxValue m' = rxxValue m
    /\ xmmValue m' = xmmValue m
    /\ (forall save, save ∈ saves -> slotValue m' base save = registerValue m save.1)
    /\ (forall k, k < lo ->
          memory m' (slotAddress base k) = memory m (slotAddress base k)).
Proof.
  induction saves as [|[r slot] rest IH]; intros lo hi m base Hbase Haligned Hplaced Hhi.
  - exists m. repeat split; try reflexivity. intros save Hin. inversion Hin.
  - destruct Hplaced as (Hlo & Heven & Hrest).
    pose proof (placed_le _ _ _ Hrest) as Hle.
    destruct (step_save m base r slot Hbase Haligned Heven ltac:(lia))
      as (m1 & Hstep & Hrxx1 & Hxmm1 & Hslot1 & Hmem1).
    destruct (IH (slot + width r) hi m1 base) as (m' & Hrun & Hrxx & Hxmm & Hslots & Hmem);
      [unfold rspValue; now rewrite Hrxx1 | exact Haligned | exact Hrest | exact Hhi |].
    exists m'. split; [|split; [|split; [|split]]].
    + simpl map. rewrite run_cons by apply saveInstr_not_ret.
      now rewrite Hstep.
    + congruence.
    + congruence.
    + intros save Hin. apply elem_of_cons in Hin. destruct Hin as [->|Hin].
      * change ((r, slot).1) with r. rewrite <- Hslot1. unfold slotValue. simpl.
        destruct r; simpl in *; rewrite ?Hmem by lia; reflexivity.
      * rewrite (Hslots save Hin).
        unfold registerValue. destruct save.1; congruence.
    + intros k Hk. rewrite Hmem by lia. apply Hmem1; lia.
Qed.

End MachineRuns.

Section MachineRestores.
Import Machine.

Lemma registerValue_setRxx_other (m : t) id v r :
  r <> Rxx id -> registerValue (setRxx id v m) r = registerValue m r.
Proof.
  intros Hne. destruct r as [id'|id']; simpl; [|reflexivity].
  rewrite fn_lookup_insert_ne; [reflexivity | congruence].
Qed.

Lemma registerValue_setXmm_other (m : t) id v r :
  r <> Xmm id -> registerValue (setXmm id v m) r = registerValue m r.
Proof.
  intros Hne. destruct r as [id'|id']; simpl; [reflexivity|].
  rewrite fn_lookup_insert_ne; [reflexivity | congruence].
Qed.

(** One restore: the register takes the contents of its slot. *)
Lemma step_restore (m : t) base r slot :
  rspValue m = base ->
  (base mod 16 = 0)%Z ->
  match r with Rxx _ => True | Xmm _ => N.even slot = true end ->
  exists m',
    step (restoreInstr (r, slot)) m = Some m'
    /\ memory m' = memory m
    /\ registerValue m' r = slotValue m base (r, slot)
    /\ (forall r', r' <> r -> registerValue m' r' = registerValue m r').
Proof.
  intros Hbase Haligned Heven. unfold rspValue in Hbase.
  destruct r as [id|id].
  - eexists. split; [reflexivity|]. simpl. unfold address. rewrite Hbase.
    fold (slotAddress base slot).
    repeat split.
    + unfold slotValue. simpl. now rewrite fn_lookup_insert.
    + intros r' Hne. now apply registerValue_setRxx_other.
  - unfold restoreInstr. simpl. unfold address. rewrite Hbase.
    fold (slotAddress base slot).
    rewrite slotAddress_aligned by assumption. simpl.
    rewrite slotAddress_next.
    eexists. split; [reflexivity|]. simpl.
    repeat split.
    + unfold slotValue. simpl. now rewrite fn_lookup_insert.
    + intros r' Hne. now apply registerValue_setXmm_other.
Qed.

(** The restores of an epilog, in any order: every saved register takes
    the value [saved] its slot holds, no other register changes, and the
    stack pointer stays, being restored to the value it has. *)
Lemma restores_run restores : forall (m : t) base (saved : FrameRegister -> Z * Z),
  rspValue m = base ->
  (base mod 16 = 0)%Z ->
  NoDup (map fst restores) ->
  (forall save, save ∈ restores ->
     slotValue m base save = saved save.1
     /\ match save.1 with Rxx _ => True | Xmm _ => N.even save.2 = true end) ->
  saved (Rxx 4) = (base, 0%Z) ->
  exists m',
    run (map restoreInstr restores) m = Some m'
    /\ memory m' = memory m
    /\ rspValue m' = base
    /\ (forall r, r ∈ map fst restores -> registerValue m' r = saved r)
    /\ (forall r, r ∉ map fst restores -> registerValue m' r = registerValue m r).
Proof.
  induction restores as [|[r slot] rest IH];
    intros m base saved Hbase Haligned Hnodup Hslots Hrsp.
  - exists m. repeat split; try assumption.
    intros r Hin. inversion Hin.
  - simpl in Hnodup.
    pose proof (NoDup_cons_1_1 _ _ Hnodup) as Hfresh.
    apply NoDup_cons_1_2 in Hnodup.
    destruct (Hslots (r, slot)) as [Hslot Heven]; [left|]. simpl in Hslot, Heven.
    destruct (step_restore m base r slot Hbase Haligned Heven)
      as (m1 & Hstep & Hmem1 & Hreg1 & Hother1).
    assert (Hbase1 : rspValue m1 = base).
    { destruct (decide (r = Rxx 4)) as [->|Hne].
      - change (rspValue m1) with (registerValue m1 (Rxx 4)).1.
        now rewrite Hreg1, Hslot, Hrsp.
      - change (rspValue m1) with (registerValue m1 (Rxx 4)).1.
        rewrite Hother1 by congruence. exact Hbase. }
    destruct (IH m1 base saved Hbase1 Haligned Hnodup) as (m' & Hrun & Hmem & Hbase' & Hin & Hout).
    { intros save Hsave. destruct (Hslots save) as [Hv He]; [now right|].
      split; [|exact He].
      rewrite <- Hv. unfold slotValue. now rewrite Hmem1. }
    { exact Hrsp. }
    exists m'. split; [|split; [|split; [|split]]].
    + simpl map. rewrite run_cons by apply restoreInstr_not_ret.
      now rewrite Hstep.
    + congruence.
    + exact Hbase'.
    + intros r' Hr'. simpl in Hr'. apply elem_of_cons in Hr'.
      destruct Hr' as [->|Hr']; [|now apply Hin].
      rewrite Hout by exact Hfresh. now rewrite Hreg1.
    + intros r' Hr'. simpl in Hr'. apply not_elem_of_cons in Hr'.
      destruct Hr' as [Hne Hr']. rewrite Hout by exact Hr'. now apply Hother1.
Qed.

End MachineRestores.

Section LayoutFacts.
Import Machine FunctionSpecification.

Lemma place_registers first w ids : map fst (place first w ids) = ids.
Proof.
  revert first. induction ids as [|id rest IH]; intros first; simpl;
    [reflexivity | now rewrite IH].
Qed.

Lemma placed_rxx first ids :
  placed first (first + N.of_nat (length ids))
         (map (fun s => (Rxx s.1, s.2)) (place first 1 ids)).
Proof.
  revert first. induction ids as [|id rest IH]; intros first; simpl.
  - lia.
  - repeat split; [lia|].
    eapply placed_weaken; [reflexivity | | apply IH]. lia.
Qed.

Lemma placed_xmm first ids :
  N.even first = true ->
  placed first (first + 2 * N.of_nat (length ids))
         (map (fun s => (Xmm s.1, s.2)) (place first 2 ids)).
Proof.
  revert first. induction ids as [|id rest IH]; intros first Heven; simpl.
  - lia.
  - repeat split; [lia | exact Heven |].
    eapply placed_weaken; [reflexivity | | apply IH].
    + lia.
    + rewrite N.even_add, Heven. reflexivity.
Qed.

Lemma roundUpToEven_spec n :
  N.even (roundUpToEven n) = true /\ n <= roundUpToEven n.
Proof.
  unfold roundUpToEven. destruct (N.even n) eqn:E.
  - split; [exact E | lia].
  - split; [|lia]. rewrite N.even_add, E. reflexivity.
Qed.

Lemma roundUpToOdd_spec n :
  N.odd (roundUpToOdd n) = true /\ n <= roundUpToOdd n.
Proof.
  unfold roundUpToOdd. rewrite <- N.negb_even. destruct (N.even n) eqn:E.
  - split; [|lia]. rewrite N.even_add, E. reflexivity.
  - split; [now rewrite E | lia].
Qed.

Lemma layout_placed a : placed 0 (totalSlots (layout a)) (savesOf (layout a)).
Proof.
  unfold savesOf, layout. simpl.
  set (paramSlots := if (0 <=? maxFunctionCallParameters a)%Z then _ else _).
  set (rxx := registersOf (rxxMaskOf a)).
  set (xmm := registersOf (xmmRegisterSaveMask a)).
  set (afterRxx := paramSlots + N.of_nat (length rxx)).
  set (xmmFirst := match xmm with [] => afterRxx | _ => roundUpToEven afterRxx end).
  set (total := roundUpToOdd _).
  assert (Hfirst : afterRxx <= xmmFirst).
  { unfold xmmFirst. destruct xmm; [lia | apply roundUpToEven_spec]. }
  assert (Htotal : xmmFirst + 2 * N.of_nat (length xmm) <= total).
  { unfold total. pose proof (roundUpToOdd_spec
      (xmmFirst + 2 * N.of_nat (length xmm) + numStackSlots a)). lia. }
  apply (placed_app 0 xmmFirst).
  - eapply placed_weaken; [| exact Hfirst | apply placed_rxx]. lia.
  - destruct xmm as [|id rest] eqn:Exmm.
    + simpl. simpl in Htotal. lia.
    + eapply placed_weaken; [reflexivity | exact Htotal |].
      apply placed_xmm. unfold xmmFirst. apply roundUpToEven_spec.
Qed.

Lemma layout_odd a : N.odd (totalSlots (layout a)) = true.
Proof. unfold layout. simpl. apply roundUpToOdd_spec. Qed.

Lemma registerIds_NoDup : NoDup (map N.of_nat (seq 0 16)).
Proof.
  change (NoDup (N.of_nat <$> seq 0 16)).
  apply NoDup_fmap_2; [intros x y; apply Nat2N.inj | apply NoDup_seq].
Qed.

Lemma registersOf_NoDup mask : NoDup (registersOf mask).
Proof.
  unfold registersOf.
  apply list.NoDup_filter, registerIds_NoDup.
Qed.

Lemma testbit_register mask id :
  mask < 2 ^ 16 -> N.testbit mask id = true -> id < 16.
Proof.
  intros Hmask Hbit. destruct (N.lt_ge_cases id 16) as [Hlt|Hge]; [exact Hlt|].
  exfalso. destruct (N.eq_dec mask 0) as [->|Hnz].
  - now rewrite N.bits_0 in Hbit.
  - rewrite N.bits_above_log2 in Hbit; [discriminate|].
    apply N.log2_lt_pow2; [lia|].
    eapply N.lt_le_trans; [exact Hmask|].
    apply N.pow_le_mono_r; lia.
Qed.

Lemma elem_registerIds id : id < 16 -> id ∈ map N.of_nat (seq 0 16).
Proof.
  intros Hid. change (map N.of_nat (seq 0 16)) with (N.of_nat <$> seq 0 16).
  apply list_elem_of_fmap. exists (N.to_nat id). split; [lia|].
  apply elem_of_seq. lia.
Qed.

Lemma elem_registersOf mask id :
  id < 16 -> N.testbit mask id = true -> id ∈ registersOf mask.
Proof.
  intros Hid Hbit. unfold registersOf. apply list_elem_of_filter.
  split; [exact Hbit | now apply elem_registerIds].
Qed.

Lemma savesOf_registers l :
  map fst (savesOf l)
  = map Rxx (map fst (rxxSaves l)) ++ map Xmm (map fst (xmmSaves l)).
Proof.
  unfold savesOf. rewrite map_app, !map_map. reflexivity.
Qed.

Lemma layout_registers a :
  map fst (savesOf (layout a))
  = map Rxx (registersOf (rxxMaskOf a))
    ++ map Xmm (registersOf (xmmRegisterSaveMask a)).
Proof.
  rewrite savesOf_registers. unfold layout. simpl.
  now rewrite !place_registers.
Qed.

Lemma layout_registers_NoDup a : NoDup (map fst (savesOf (layout a))).
Proof.
  rewrite layout_registers. apply list.NoDup_app. repeat split.
  - change (NoDup (Rxx <$> registersOf (rxxMaskOf a))).
    apply NoDup_fmap_2; [intros x y; congruence | apply registersOf_NoDup].
  - intros r Hr Hx.
    change (r ∈ Rxx <$> registersOf (rxxMaskOf a)) in Hr.
    change (r ∈ Xmm <$> registersOf (xmmRegisterSaveMask a)) in Hx.
    apply list_elem_of_fmap in Hr. apply list_elem_of_fmap in Hx.
    destruct Hr as (x & -> & _). destruct Hx as (y & Hy & _). discriminate.
  - change (NoDup (Xmm <$> registersOf (xmmRegisterSaveMask a))).
    apply NoDup_fmap_2; [intros x y; congruence | apply registersOf_NoDup].
Qed.

Lemma saved_rxx a id :
  rxxRegisterSaveMask a < 2 ^ 16 ->
  N.testbit (rxxRegisterSaveMask a) id = true ->
  Rxx id ∈ map fst (savesOf (layout a)).
Proof.
  intros Hmask Hbit. rewrite layout_registers. apply elem_of_app. left.
  change (Rxx id ∈ Rxx <$> registersOf (rxxMaskOf a)).
  apply list_elem_of_fmap_2. apply elem_registersOf.
  - eapply testbit_register; eassumption.
  - unfold rxxMaskOf. destruct (baseRegisterType a); [exact Hbit|].
    rewrite N.lor_spec, Hbit. reflexivity.
Qed.

Lemma saved_xmm a id :
  xmmRegisterSaveMask a < 2 ^ 16 ->
  N.testbit (xmmRegisterSaveMask a) id = true ->
  Xmm id ∈ map fst (savesOf (layout a)).
Proof.
  intros Hmask Hbit. rewrite layout_registers. apply elem_of_app. right.
  change (Xmm id ∈ Xmm <$> registersOf (xmmRegisterSaveMask a)).
  apply list_elem_of_fmap_2. apply elem_registersOf; [|exact Hbit].
  eapply testbit_register; eassumption.
Qed.

Lemma savesOf_in_area l save :
  save ∈ savesOf l ->
  save.2 ∈ saveArea l
  /\ match save.1 with
     | Rxx _ => True
     | Xmm _ => save.2 + 1 ∈ saveArea l
     end.
Proof.
  unfold savesOf, saveArea. intros Hin. apply elem_of_app in Hin.
  destruct Hin as [Hin|Hin].
  - change (save ∈ (fun s : N * N => (Rxx s.1, s.2)) <$> rxxSaves l) in Hin.
    apply list_elem_of_fmap in Hin. destruct Hin as (s & -> & Hs). simpl.
    split; [|trivial]. apply elem_of_app. left.
    change (s.2 ∈ snd <$> rxxSaves l). now apply list_elem_of_fmap_2.
  - change (save ∈ (fun s : N * N => (Xmm s.1, s.2)) <$> xmmSaves l) in Hin.
    apply list_elem_of_fmap in Hin. destruct Hin as (s & -> & Hs). simpl.
    assert (Hboth : forall k, k ∈ [s.2; s.2 + 1] ->
      k ∈ flat_map (fun save : N * N => [save.2; save.2 + 1]) (xmmSaves l)).
    { intros k Hk. apply list_elem_of_In. apply in_flat_map.
      exists s. split; apply list_elem_of_In; assumption. }
    split; apply elem_of_app; right; apply Hboth.
    + left.
    + right. left.
Qed.

End LayoutFacts.

Section FrameShape.
Import Machine FunctionSpecification.

Lemma withBaseRegister_instrs lea steps :
  steps <> [] ->
  concat (map fst (withBaseRegister lea steps)) = concat (map fst steps) ++ lea.
Proof.
  induction steps as [|[instrs code] rest IH]; intros Hne; [congruence|].
  destruct rest as [|step rest].
  - simpl. now rewrite !app_nil_r.
  - change (withBaseRegister lea ((instrs, code) :: step :: rest))
      with ((instrs, code) :: withBaseRegister lea (step :: rest)).
    specialize (IH ltac:(discriminate)).
    set (w := withBaseRegister lea (step :: rest)) in *.
    simpl. simpl in IH. rewrite IH. now rewrite !app_assoc.
Qed.

Lemma rxxSteps_instrs saves :
  concat (map fst (map rxxStep saves))
  = map saveInstr (map (fun s => (Rxx s.1, s.2)) saves).
Proof. induction saves as [|s rest IH]; simpl; [reflexivity | now rewrite IH]. Qed.

Lemma xmmSteps_instrs saves :
  concat (map fst (map xmmStep saves))
  = map saveInstr (map (fun s => (Xmm s.1, s.2)) saves).
Proof. induction saves as [|s rest IH]; simpl; [reflexivity | now rewrite IH]. Qed.

Lemma saveSteps_instrs l :
  concat (map fst (saveSteps l))
  = FImmediate OpCode.Sub rsp (frameBytes l) :: map saveInstr (savesOf l).
Proof.
  unfold saveSteps, savesOf. simpl. f_equal.
  rewrite !map_app, concat_app, rxxSteps_instrs, xmmSteps_instrs.
  reflexivity.
Qed.

Lemma prolog_instrs a :
  let l := layout a in
  concat (map fst (prologSteps a l))
  = FImmediate OpCode.Sub rsp (frameBytes l)
      :: map saveInstr (savesOf l) ++ baseRegisterSetup a l.
Proof.
  intros l. unfold prologSteps.
  destruct (baseRegisterSetup a l) as [|lea rest] eqn:E.
  - rewrite app_nil_r. apply saveSteps_instrs.
  - rewrite withBaseRegister_instrs by discriminate.
    now rewrite saveSteps_instrs.
Qed.

Lemma epilog_instrs l :
  epilogOf l
  = map restoreInstr (reverse (savesOf l))
    ++ [FImmediate OpCode.Add rsp (frameBytes l); FRet].
Proof.
  unfold epilogOf, savesOf. rewrite app_assoc. f_equal.
  rewrite reverse_app.
  change (map restoreInstr ?x) with (restoreInstr <$> x).
  rewrite fmap_app, !fmap_reverse.
  change (?f <$> ?x) with (map f x).
  now rewrite !map_map.
Qed.

Lemma placed_even lo hi saves save :
  placed lo hi saves -> save ∈ saves ->
  match save.1 with Rxx _ => True | Xmm _ => N.even save.2 = true end.
Proof.
  revert lo. induction saves as [|[r slot] rest IH]; intros lo Hplaced Hin.
  - inversion Hin.
  - destruct Hplaced as (_ & Heven & Hrest).
    apply elem_of_cons in Hin. destruct Hin as [->|Hin]; [exact Heven|].
    eapply IH; eassumption.
Qed.

End FrameShape.

Section FrameTheorems.
Import Machine FunctionSpecification.
Variable encodedLength : FrameInstr -> N.

Lemma new_inv a spec :
  new encodedLength a = Some spec ->
  rxxRegisterSaveMask a < 2 ^ 16
  /\ xmmRegisterSaveMask a < 2 ^ 16
  /\ totalSlots (layout a) < 2 ^ 16
  /\ GetProlog spec = concat (map fst (prologSteps a (layout a)))
  /\ GetEpilog spec = epilogOf (layout a)
  /\ GetOffsetToOriginalRsp spec = frameBytes (layout a)
  /\ GetUnwindInfoByteLength spec
     = unwindInfoByteLength
         (unwindCodesFrom encodedLength 0 (prologSteps a (layout a)))
  /\ GetUnwindInfo spec
     = let codes := unwindCodesFrom encodedLength 0 (prologSteps a (layout a)) in
       mkUnwindInfo 1 0 (lengthOf encodedLength (GetProlog spec))
                    (N.of_nat (length codes)) 0 0 codes.
Proof.
  unfold new. intros Hnew.
  destruct (_ && _) eqn:Hok; [|discriminate].
  apply andb_prop in Hok. destruct Hok as [Hok Htotal].
  apply andb_prop in Hok. destruct Hok as [Hrxx Hxmm].
  apply N.ltb_lt in Hrxx, Hxmm, Htotal.
  injection Hnew as <-. simpl. repeat split; assumption.
Qed.

(** C6. Whatever the frame, as long as its construction succeeds: run
    from a state whose stack pointer is that of a function entry (8 modulo
    16), the prolog, then a body that may overwrite every register and
    only has to keep the save area and to hand the stack pointer back,
    then the epilog, reach the return; there the stack pointer has its
    entry value again, and every register of the integer and of the
    vector save mask holds the value it had before the prolog. *)
Theorem frame_preserves_saved_registers a spec (m : Machine.t) (body : Machine.t -> Machine.t) :
  new encodedLength a = Some spec ->
  (0 <= rspValue m < 2 ^ 64)%Z ->
  (rspValue m mod 16 = 8)%Z ->
  (forall m1, run (GetProlog spec) m = Some m1 -> keepsFrame (layout a) body m1) ->
  exists m',
    call spec body m = Some m'
    /\ rspValue m' = rspValue m
    /\ (forall id, N.testbit (rxxRegisterSaveMask a) id = true ->
          rxxValue m' id = rxxValue m id)
    /\ (forall id, N.testbit (xmmRegisterSaveMask a) id = true ->
          xmmValue m' id = xmmValue m id).
Proof.
  intros Hnew Hrange Hentry Hbody.
  destruct (new_inv a spec Hnew)
    as (Hrxx & Hxmm & Htotal & Hprolog & Hepilog & _).
  set (l := layout a) in *.
  set (base := wrap64 (rspValue m - frameBytes l)).
  set (m0 := setRxx 4 base m).
  assert (Haligned : (base mod 16 = 0)%Z).
  { apply frame_base_aligned; [exact Hentry | apply layout_odd]. }
  assert (Hbase0 : rspValue m0 = base).
  { unfold rspValue, m0. simpl. apply fn_lookup_insert. }
  (* the saves *)
  destruct (saves_run (savesOf l) 0 (totalSlots l) m0 base Hbase0 Haligned
              (layout_placed a) ltac:(lia))
    as (ms & Hsaves & Hrxxs & Hxmms & Hslots & _).
  (* the base register *)
  assert (Hsetup : exists m1,
    run (baseRegisterSetup a l) ms = Some m1
    /\ memory m1 = memory ms /\ rspValue m1 = base).
  { unfold baseRegisterSetup. destruct (baseRegisterType a).
    - exists ms. repeat split. unfold rspValue. now rewrite Hrxxs.
    - eexists. split; [reflexivity|]. split; [reflexivity|].
      unfold rspValue. simpl. rewrite fn_lookup_insert_ne by discriminate.
      now rewrite Hrxxs. }
  destruct Hsetup as (m1 & Hsetup & Hmem1 & Hbase1).
  assert (Hrun1 : run (GetProlog spec) m = Some m1).
  { pose proof (prolog_instrs a) as Hshape. cbv zeta in Hshape. fold l in Hshape.
    rewrite Hprolog, Hshape.
    rewrite run_cons by discriminate.
    change (step (FImmediate OpCode.Sub rsp (frameBytes l)) m) with (Some m0).
    cbv beta iota.
    rewrite run_app.
    - now rewrite Hsaves.
    - apply Forall_forall. intros i Hi. apply in_map_iff in Hi.
      destruct Hi as (save & <- & _). apply saveInstr_not_ret. }
  (* the body *)
  destruct (Hbody m1 Hrun1) as [Hbase2 Hmem2]. rewrite Hbase1 in Hbase2, Hmem2.
  fold l in Hmem2.
  assert (Hheld : forall save, save ∈ savesOf l ->
    slotValue (body m1) base save = registerValue m0 save.1).
  { intros save Hsave. rewrite <- (Hslots save Hsave).
    destruct (savesOf_in_area l save Hsave) as [H1 H2].
    unfold slotValue. destruct save.1.
    - now rewrite Hmem2, Hmem1.
    - now rewrite !Hmem2, Hmem1. }
  (* the restores *)
  destruct (restores_run (reverse (savesOf l)) (body m1) base (registerValue m0)
              Hbase2 Haligned)
    as (m3 & Hrestores & _ & Hbase3 & Hin3 & _).
  { change (map fst (reverse (savesOf l))) with (fst <$> reverse (savesOf l)).
    rewrite fmap_reverse, reverse_Permutation. apply layout_registers_NoDup. }
  { intros save Hsave. rewrite elem_of_reverse in Hsave. split.
    - now apply Hheld.
    - eapply placed_even; [apply (layout_placed a) | exact Hsave]. }
  { unfold registerValue. f_equal. }
  set (m' := setRxx 4 (wrap64 (rxxValue m3 4 + frameBytes l)) m3).
  assert (Hback : rspValue m' = rspValue m).
  { unfold rspValue, m'. simpl. rewrite fn_lookup_insert.
    unfold rspValue in Hbase3. rewrite Hbase3. unfold base.
    now apply wrap64_sub_add. }
  assert (Hsaved : forall r, r ∈ map fst (savesOf l) ->
    registerValue m3 r = registerValue m0 r).
  { intros r Hr. apply Hin3.
    change (map fst (reverse (savesOf l))) with (fst <$> reverse (savesOf l)).
    rewrite fmap_reverse. now apply elem_of_reverse_2. }
  exists m'. split; [|split; [|split]].
  - unfold call. rewrite Hrun1, Hepilog. fold l. rewrite epilog_instrs.
    rewrite run_app.
    + rewrite Hrestores. reflexivity.
    + apply Forall_forall. intros i Hi. apply in_map_iff in Hi.
      destruct Hi as (save & <- & _). apply restoreInstr_not_ret.
  - exact Hback.
  - intros id Hbit. destruct (N.eq_dec id 4) as [->|Hne]; [exact Hback|].
    pose proof (Hsaved (Rxx id) (saved_rxx a id Hrxx Hbit)) as Hid.
    simpl in Hid. injection Hid as Hid.
    unfold m'. simpl. rewrite fn_lookup_insert_ne by congruence.
    rewrite Hid. unfold m0. simpl. now rewrite fn_lookup_insert_ne by congruence.
  - intros id Hbit.
    pose proof (Hsaved (Xmm id) (saved_xmm a id Hxmm Hbit)) as Hid.
    simpl in Hid. exact Hid.
Qed.

End FrameTheorems.

Section UnwindInfoFacts.
Import FunctionSpecification.
Variable encodedLength : FrameInstr -> N.

Lemma withBaseRegister_head lea step rest :
  exists instrs rest',
    withBaseRegister lea (step :: rest) = (instrs, step.2) :: rest'.
Proof.
  destruct step as [instrs code]. destruct rest as [|step' rest]; simpl; eauto.
Qed.

Lemma prologSteps_head a l :
  exists instrs rest, prologSteps a l = (instrs, (allocStep l).2) :: rest.
Proof.
  unfold prologSteps, saveSteps.
  destruct (baseRegisterSetup a l); [simpl; eauto|].
  apply withBaseRegister_head.
Qed.

Lemma unwindCodes_nonempty a l pos :
  (1 <= length (unwindCodesFrom encodedLength pos (prologSteps a l)))%nat.
Proof.
  destruct (prologSteps_head a l) as (instrs & rest & ->).
  simpl. rewrite length_app. destruct (totalSlots l <=? 16); simpl; lia.
Qed.

(** C7. For every specification whose construction succeeds, the header
    size plus the declared count of codes times the size of a code is the
    declared byte length of the unwind data, or one code less than it; the
    header carries version 1, flags 0, frame register 0 and frame offset
    0.  (The declared count is the number of codes, and the length covers
    at least the header and one code, as [ValidateUnwindInfo] first
    asserts.) *)
Theorem unwind_info_length_consistent a spec :
  new encodedLength a = Some spec ->
  let info := GetUnwindInfo spec in
  let occupied := baseUnwindInfoSize + m_countOfCodes info * sizeofUnwindCode in
  (occupied = GetUnwindInfoByteLength spec
   \/ occupied + sizeofUnwindCode = GetUnwindInfoByteLength spec)
  /\ m_version info = 1
  /\ m_flags info = 0
  /\ m_frameRegister info = 0
  /\ m_frameOffset info = 0
  /\ m_countOfCodes info = N.of_nat (length (m_unwindCodes info))
  /\ baseUnwindInfoSize + sizeofUnwindCode <= GetUnwindInfoByteLength spec.
Proof.
  intros Hnew info occupied.
  destruct (new_inv encodedLength a spec Hnew)
    as (_ & _ & _ & _ & _ & _ & Hlen & Hinfo).
  subst occupied info. rewrite Hinfo, Hlen. cbv zeta. simpl.
  pose proof (unwindCodes_nonempty a (layout a) 0) as Hne.
  unfold unwindInfoByteLength, roundUpToEven, baseUnwindInfoSize, sizeofUnwindCode.
  set (n := length _) in *.
  destruct (N.even (N.of_nat n)).
  - split; [left; lia | repeat split; lia].
  - split; [right; lia | repeat split; lia].
Qed.

Lemma unwindCodes_length_le pos steps :
  Forall (fun step : Step => forall p, (length (step.2 p) <= 2)%nat) steps ->
  (length (unwindCodesFrom encodedLength pos steps) <= 2 * length steps)%nat.
Proof.
  intros Hsteps. revert pos.
  induction Hsteps as [|[instrs code] rest Hcode _ IH]; intros pos; simpl.
  - lia.
  - rewrite length_app. specialize (IH (pos + lengthOf encodedLength instrs)).
    specialize (Hcode (pos + lengthOf encodedLength instrs)). simpl in Hcode. lia.
Qed.

Lemma withBaseRegister_codes lea steps :
  Forall (fun step : Step => forall p, (length (step.2 p) <= 2)%nat) steps ->
  Forall (fun step : Step => forall p, (length (step.2 p) <= 2)%nat)
         (withBaseRegister lea steps)
  /\ length (withBaseRegister lea steps) = length steps.
Proof.
  induction 1 as [|[instrs code] rest Hcode Hrest IH].
  - split; [constructor | reflexivity].
  - destruct rest as [|step rest].
    + split; [|reflexivity]. simpl. constructor; [exact Hcode | constructor].
    + change (withBaseRegister lea ((instrs, code) :: step :: rest))
        with ((instrs, code) :: withBaseRegister lea (step :: rest)).
      destruct IH as [IH1 IH2]. split.
      * constructor; assumption.
      * change (S (length (withBaseRegister lea (step :: rest)))
                = S (length (step :: rest))).
        now rewrite IH2.
Qed.

Lemma registersOf_length mask : (length (registersOf mask) <= 16)%nat.
Proof.
  unfold registersOf.
  etransitivity; [apply length_filter|].
  now rewrite length_map, length_seq.
Qed.

Lemma place_length first w ids : length (place first w ids) = length ids.
Proof.
  revert first. induction ids as [|id rest IH]; intros first; simpl;
    [reflexivity | now rewrite IH].
Qed.

(** The count of codes fits the byte that holds it: at most two codes for
    the allocation and two for each of at most thirty-two registers. *)
Lemma unwind_code_count_fits_a_byte a spec :
  new encodedLength a = Some spec ->
  m_countOfCodes (GetUnwindInfo spec) <= 66.
Proof.
  intros Hnew.
  destruct (new_inv encodedLength a spec Hnew)
    as (_ & _ & _ & _ & _ & _ & _ & Hinfo).
  rewrite Hinfo. cbv zeta. simpl m_countOfCodes.
  assert (Hsaves :
    Forall (fun step : Step => forall p, (length (step.2 p) <= 2)%nat)
           (saveSteps (layout a))).
  { unfold saveSteps. constructor.
    - intros p. simpl. destruct (_ <=? _); simpl; lia.
    - apply Forall_app. split; apply Forall_forall; intros step Hin;
        apply in_map_iff in Hin; destruct Hin as (save & <- & _);
        intros p; simpl; lia. }
  assert (Hlen : (length (saveSteps (layout a)) <= 33)%nat).
  { unfold saveSteps, layout. simpl.
    rewrite length_app, !length_map, !place_length.
    pose proof (registersOf_length (rxxMaskOf a)).
    pose proof (registersOf_length (xmmRegisterSaveMask a)). lia. }
  assert (Hcount :
    (length (unwindCodesFrom encodedLength 0 (prologSteps a (layout a))) <= 66)%nat).
  { unfold prologSteps. destruct (baseRegisterSetup a (layout a)) as [|lea rest].
    - pose proof (unwindCodes_length_le 0 _ Hsaves). lia.
    - destruct (withBaseRegister_codes (lea :: rest) _ Hsaves) as [Hcodes Hsame].
      pose proof (unwindCodes_length_le 0 _ Hcodes). lia. }
  lia.
Qed.

(** C8. A function with no calls (argument count -1), no local slot, empty
    save masks and no base register still reserves one 8-byte slot: the
    offset to the original stack pointer is 8, and the unwind data holds
    exactly one code, a small allocation with operand 0. *)
Theorem trivial_frame_reserves_one_slot :
  exists spec offset,
    new encodedLength (mkArgs (-1) 0 0 0 Unused) = Some spec
    /\ GetOffsetToOriginalRsp spec = 8%Z
    /\ GetProlog spec = [FImmediate OpCode.Sub rsp 8]
    /\ GetEpilog spec = [FImmediate OpCode.Add rsp 8; FRet]
    /\ m_countOfCodes (GetUnwindInfo spec) = 1
    /\ m_unwindCodes (GetUnwindInfo spec) = [Operation offset UWOP_ALLOC_SMALL 0].
Proof.
  eexists. eexists. split; [reflexivity|]. simpl. repeat split.
Qed.

(** C9. With at most one call argument, two local slots, the base
    register set to the original stack pointer, and XMM10 and XMM11 in the
    vector save mask, the frame is 104 bytes, and the unwind data holds
    exactly seven codes: the two-slot save of XMM11 at 16-byte offset 4,
    the two-slot save of XMM10 at 16-byte offset 3, the two-slot save of
    the base register at quadword offset 4, and a small allocation with
    operand 12 (13 slots), that is, the steps of the prolog in the reverse
    of the order in which it performs them. *)
Theorem complex_frame_layout :
  let xmmMask := N.lor (N.shiftl 1 10) (N.shiftl 1 11) in
  exists spec o0 o1 o2 o3,
    new encodedLength (mkArgs 1 2 0 xmmMask SetRbpToOriginalRsp) = Some spec
    /\ GetOffsetToOriginalRsp spec = 104%Z
    /\ GetProlog spec
       = [FImmediate OpCode.Sub rsp 104;
          FStore OpCode.Mov rsp 32 rbp;
          FStore OpCode.MovAligned128 rsp 48 (Xmm 10);
          FStore OpCode.MovAligned128 rsp 64 (Xmm 11);
          FLoad OpCode.Lea rbp rsp 104]
    /\ m_countOfCodes (GetUnwindInfo spec) = 7
    /\ m_unwindCodes (GetUnwindInfo spec)
       = [Operation o3 UWOP_SAVE_XMM128 11; FrameOffset 4;
          Operation o2 UWOP_SAVE_XMM128 10; FrameOffset 3;
          Operation o1 UWOP_SAVE_NONVOL 5; FrameOffset 4;
          Operation o0 UWOP_ALLOC_SMALL 12]
    /\ o0 <= o1 <= o2 /\ o2 <= o3.
Proof.
  intros xmmMask. do 5 eexists. split; [reflexivity|].
  simpl. repeat split; lia.
Qed.

End UnwindInfoFacts.

(* ===================================================================== *)
(** * The theorems at work on concrete inputs *)
(* ===================================================================== *)

Section NodeWitnesses.
Import SimpleTree.



Example ConditionalNode_same_register_no_move :
  ConditionalNode.CodeGenValue sharedConditional (emptyTree (replicate 4 emptyNode))
  = (Return 8%nat,
     emitting [EmitFromStorage OpCode.Cmp 8 9%nat;
               EmitConditionalJump JE 0%nat;
               Jmp 1%nat; PlaceLabel 0%nat; PlaceLabel 1%nat]
              (labelled (labelled (emptyTree (replicate 4 emptyNode))))).
Proof. reflexivity. Qed.

(** [10 < 20] as a value: the right operand, labelled with more
    registers, is loaded first; the result register 2 receives 0 or 1. *)
Lemma RelationalOperatorNode_CodeGenValue_pattern_witness :
  generates (RelationalOperatorNode.CodeGenValue sampleRelational) sampleTree
    [EmitImmediate OpCode.Mov 0 20; EmitImmediate OpCode.Mov 1 10;
     EmitFromStorage OpCode.Cmp 1 0%nat;
     EmitConditionalJump JL 0%nat;
     EmitImmediate OpCode.Mov 2 0;
     Jmp 1%nat;
     PlaceLabel 0%nat;
     EmitImmediate OpCode.Mov 2 1;
     PlaceLabel 1%nat]
    2%nat
    (emitting (booleanPattern JL 2 0%nat 1%nat)
       (mkTree
          (mkCode [EmitImmediate OpCode.Mov 0 20; EmitImmediate OpCode.Mov 1 10;
                   EmitFromStorage OpCode.Cmp 1 0%nat] 2)
          sampleNodes 3)).
Proof.
  pose (this := sampleRelational).
  pose (s1 := (Node.CodeGen (RelationalOperatorNode.m_right this)
                 (labelled (labelled sampleTree))).2).
  pose (s2 := (Node.CodeGen (RelationalOperatorNode.m_left this) s1).2).
  pose (s3 := (ConvertToDirect 1%nat false s2).2).
  pose (s4 := (Direct (emitting [EmitFromStorage OpCode.Cmp 1 0%nat] s3)).2).
  refine (RelationalOperatorNode_CodeGenValue_pattern this sampleTree s1 s2 s3 s4
            [EmitImmediate OpCode.Mov 0 20] [EmitImmediate OpCode.Mov 1 10] [] []
            0%nat 1%nat 2%nat 1 2 _ _ _ _ _ _);
    try (split; reflexivity); reflexivity.
Defined.

(** C2 as stated fails for a node whose result is cached: from the tree
    in which the comparison is cached in storage 7, [CodeGenValue]
    allocates its two labels, emits [Or 7, 7] and throws; it yields no
    register and no compare, no jump and no move is emitted. *)
Lemma RelationalOperatorNode_CodeGenValue_cached_throws :
  IsCached (RelationalOperatorNode.self sampleRelational) cachedTree = true
  /\ RelationalOperatorNode.CodeGenValue sampleRelational cachedTree
     = (Thrown (ThrowInt 0),
        mkTree (mkCode [Emit OpCode.Or 7 7] 2)
               [mkNodeBase 1 1 None; mkNodeBase 1 2 None; mkNodeBase 2 2 None] 0)
  /\ forall result s',
       RelationalOperatorNode.CodeGenValue sampleRelational cachedTree
       <> (Return result, s').
Proof.
  split; [reflexivity|]. split; [reflexivity|].
  intros result s' Hreturn. vm_compute in Hreturn. discriminate.
Qed.

(** The comparison once cached in storage 7: [Or 7, 7], the cache gone,
    and the exception. *)
Lemma RelationalOperatorNode_CodeGenFlags_cached_witness :
  RelationalOperatorNode.CodeGenFlags sampleRelational cachedTree
  = (Thrown (ThrowInt 0),
     emitting [Emit OpCode.Or 7 7] (withNode 2%nat releaseCache cachedTree))
  /\ IsCached 2%nat cachedTree = true.
Proof.
  destruct (RelationalOperatorNode_CodeGenFlags_cached sampleRelational cachedTree
              7%nat eq_refl) as (Hcached & _ & Hrun & _).
  split; [apply Hrun; reflexivity | exact Hcached].
Defined.

(** [10 < 20] as flags: the right operand (two registers) before the left
    one (one register). *)
Lemma RelationalOperatorNode_CodeGenFlags_order_witness :
  generates (RelationalOperatorNode.CodeGenFlags sampleRelational) sampleTree
    [EmitImmediate OpCode.Mov 0 20; EmitImmediate OpCode.Mov 1 10;
     EmitFromStorage OpCode.Cmp 1 0%nat]
    tt
    (emitting [EmitFromStorage OpCode.Cmp 1 0%nat]
       (mkTree
          (mkCode [EmitImmediate OpCode.Mov 0 20; EmitImmediate OpCode.Mov 1 10] 0)
          sampleNodes 2)).
Proof.
  pose (this := sampleRelational).
  pose (s1 := (Node.CodeGen (RelationalOperatorNode.m_right this) sampleTree).2).
  pose (s2 := (Node.CodeGen (RelationalOperatorNode.m_left this) s1).2).
  pose (s3 := (ConvertToDirect 1%nat false s2).2).
  refine (RelationalOperatorNode_CodeGenFlags_order this sampleTree s1 s2 s3
            (RelationalOperatorNode.m_right this) (RelationalOperatorNode.m_left this)
            [EmitImmediate OpCode.Mov 0 20] [EmitImmediate OpCode.Mov 1 10] []
            0%nat 1%nat 1 _ _ _ _ _).
  - reflexivity.
  - right. left. repeat split; reflexivity.
  - split; reflexivity.
  - split; reflexivity.
  - split; reflexivity.
Defined.



(** Constructing [10 < 20] and [(10 < 20) ? 1 : 2] over the sample tree:
    the constants 10 and 20 gain a parent each, and the conditional adds
    none. *)
Lemma parent_counts_after_construction_witness :
  let relational :=
    (RelationalOperatorNode.new JL (immediate 0 10) (immediate 1 20) sampleTree).2 in
  let conditional :=
    (ConditionalNode.new JL (ConditionalNode.m_condition sampleConditional)
       (immediate 3 1) (immediate 4 2) sampleTree).2 in
  (GetParentCount 0%nat relational = GetParentCount 0%nat sampleTree + 1 + 0
   /\ GetParentCount 1%nat relational = GetParentCount 1%nat sampleTree + 1 + 0)
  /\ (GetParentCount 2%nat conditional = GetParentCount 2%nat sampleTree
      /\ GetParentCount 3%nat conditional = GetParentCount 3%nat sampleTree
      /\ GetParentCount 4%nat conditional = GetParentCount 4%nat sampleTree).
Proof.
  refine (parent_counts_after_construction sampleTree JL
            (immediate 0 10) (immediate 1 20)
            (ConditionalNode.m_condition sampleConditional)
            (immediate 3 1) (immediate 4 2) _ _ _ _ _);
    vm_compute; lia.
Defined.

(** C10 as stated fails when one node is both operands, as in [x == x]:
    the node is referred to twice, and its parent count goes from 0 to 2,
    not to 1. *)
Lemma RelationalOperatorNode_new_shared_operand :
  let x := immediate 0 10 in
  let tree := emptyTree [emptyNode] in
  let after := (RelationalOperatorNode.new JE x x tree).2 in
  GetParentCount (Node.GetId x) tree = 0
  /\ GetParentCount (Node.GetId x) after = 2
  /\ GetParentCount (Node.GetId x) after
     <> GetParentCount (Node.GetId x) tree + 1.
Proof.
  split; [reflexivity|]. split; [reflexivity|]. vm_compute. discriminate.
Qed.

End NodeWitnesses.

Section FrameWitnesses.
Import Machine FunctionSpecification.

(** The sample frame run through prolog, garbage and epilog. *)
Lemma frame_preserves_saved_registers_witness :
  exists spec,
    new SampleFrame.encodedLength SampleFrame.args = Some spec
    /\ exists m',
         call spec SampleFrame.garbage SampleFrame.caller = Some m'
         /\ rspValue m' = rspValue SampleFrame.caller
         /\ (forall id,
               N.testbit (rxxRegisterSaveMask SampleFrame.args) id = true ->
               rxxValue m' id = rxxValue SampleFrame.caller id)
         /\ (forall id,
               N.testbit (xmmRegisterSaveMask SampleFrame.args) id = true ->
               xmmValue m' id = xmmValue SampleFrame.caller id).
Proof.
  eexists. split; [reflexivity|].
  apply (frame_preserves_saved_registers SampleFrame.encodedLength SampleFrame.args).
  - reflexivity.
  - change (rspValue SampleFrame.caller) with 32760%Z. lia.
  - reflexivity.
  - intros m1 _. split; reflexivity.
Defined.

(** The unwind data of the sample frame: eleven codes in twelve slots. *)
Lemma unwind_info_length_consistent_witness :
  exists spec,
    new SampleFrame.encodedLength SampleFrame.args = Some spec
    /\ m_countOfCodes (GetUnwindInfo spec) = 11
    /\ GetUnwindInfoByteLength spec = 28
    /\ (baseUnwindInfoSize + m_countOfCodes (GetUnwindInfo spec) * sizeofUnwindCode
        = GetUnwindInfoByteLength spec
        \/ baseUnwindInfoSize + m_countOfCodes (GetUnwindInfo spec) * sizeofUnwindCode
           + sizeofUnwindCode
           = GetUnwindInfoByteLength spec).
Proof.
  eexists. split; [reflexivity|]. split; [reflexivity|]. split; [reflexivity|].
  apply (unwind_info_length_consistent SampleFrame.encodedLength SampleFrame.args).
  reflexivity.
Defined.

(** The remaining frames of [FunctionBufferUnitTest.cpp]. *)
Example FunctionWithCalls_frame enc :
  exists spec offset,
    new enc (mkArgs 1 0 0 0 Unused) = Some spec
    /\ GetOffsetToOriginalRsp spec = 40%Z
    /\ GetProlog spec = [FImmediate OpCode.Sub rsp 40]
    /\ GetEpilog spec = [FImmediate OpCode.Add rsp 40; FRet]
    /\ m_unwindCodes (GetUnwindInfo spec) = [Operation offset UWOP_ALLOC_SMALL 4].
Proof. do 2 eexists. split; [reflexivity|]. simpl. repeat split. Qed.

Example LargeStackAlloc_frame enc :
  exists spec offset,
    new enc (mkArgs (-1) 17 0 0 Unused) = Some spec
    /\ GetOffsetToOriginalRsp spec = 136%Z
    /\ GetProlog spec = [FImmediate OpCode.Sub rsp 136]
    /\ GetEpilog spec = [FImmediate OpCode.Add rsp 136; FRet]
    /\ m_unwindCodes (GetUnwindInfo spec)
       = [Operation offset UWOP_ALLOC_LARGE 0; FrameOffset 17].
Proof. do 2 eexists. split; [reflexivity|]. simpl. repeat split. Qed.

Example RbpSetToOldRsp_frame enc :
  exists spec o0 o1,
    new enc (mkArgs 6 0 0 0 SetRbpToOriginalRsp) = Some spec
    /\ GetOffsetToOriginalRsp spec = 56%Z
    /\ GetProlog spec
       = [FImmediate OpCode.Sub rsp 56; FStore OpCode.Mov rsp 48 rbp;
          FLoad OpCode.Lea rbp rsp 56]
    /\ GetEpilog spec
       = [FLoad OpCode.Mov rbp rsp 48; FImmediate OpCode.Add rsp 56; FRet]
    /\ m_unwindCodes (GetUnwindInfo spec)
       = [Operation o1 UWOP_SAVE_NONVOL 5; FrameOffset 6;
          Operation o0 UWOP_ALLOC_SMALL 6]
    /\ o1 = lengthOf enc (GetProlog spec).
Proof.
  do 3 eexists. split; [reflexivity|]. simpl. repeat split.
  rewrite N.add_0_r. reflexivity.
Qed.

End FrameWitnesses.

(* ===================================================================== *)
(** * Further properties of the node classes *)
(* ===================================================================== *)

Section SubtreeLabelling.
Context {Alloc : Type} `{!TreeOps Alloc}.
Implicit Types s : ExpressionTree Alloc.

(** X1. [RelationalOperatorNode::LabelSubtree] labels the left operand as
    a left child, then the right operand as a right child from the tree
    the left one left, whatever its own argument; it stores
    [ComputeRegisterCount] of the two counts in its own node, touching no
    other node, no code and no register, and returns the register count
    read back from the node, the one a parent reads later with
    [GetRegisterCount]. *)
Theorem RelationalOperatorNode_LabelSubtree_run
    (this : RelationalOperatorNode.t Alloc) (isLeftChild : bool) s0 s1 s2
    (left right : N) :
  let self := RelationalOperatorNode.self this in
  let s' := withNode self (SetRegisterCount (ComputeRegisterCount left right)) s2 in
  Node.LabelSubtree (RelationalOperatorNode.m_left this) true s0
    = (Return left, s1) ->
  Node.LabelSubtree (RelationalOperatorNode.m_right this) false s1
    = (Return right, s2) ->
  RelationalOperatorNode.LabelSubtree this isLeftChild s0
    = (Return (registerCount self s'), s')
  /\ ((self < length (m_nodes s2))%nat ->
      registerCount self s'
      = GetRegisterCount
          (SetRegisterCount (ComputeRegisterCount left right) (nodeAt s2 self)))
  /\ m_code s' = m_code s2
  /\ m_alloc s' = m_alloc s2
  /\ (forall n, n <> self -> nodeAt s' n = nodeAt s2 n).
Proof.
  intros self s' Hleft Hright. split; [|split; [|split; [|split]]].
  - unfold RelationalOperatorNode.LabelSubtree.
    run_known Hleft. run_known Hright. reflexivity.
  - intros Hself. unfold registerCount, s'.
    now rewrite nodeAt_withNode_same.
  - reflexivity.
  - reflexivity.
  - intros n Hn. apply nodeAt_withNode_other. congruence.
Qed.

End SubtreeLabelling.

(** Bring together what is known of one call. *)
Ltac same_call :=
  repeat match goal with
  | E : ?c = (_, _), H : ?c = (_, _) |- _ =>
      rewrite E in H; first [discriminate H | inversion H; subst; clear H]
  | H : (_, _) = (_, _) |- _ =>
      first [discriminate H | inversion H; subst; clear H]
  end.

Ltac split_cases H :=
  repeat match type of H with
  | _ \/ _ => destruct H as [H | H]
  | exists _, _ => let x := fresh "x" in destruct H as [x H]
  | _ /\ _ => let H' := fresh "H" in destruct H as [H' H]
  end.

Section ConditionalNodeOutcomes.
Context {Alloc : Type} `{!TreeOps Alloc}.
Implicit Types s : ExpressionTree Alloc.
Implicit Types this : ConditionalNode.t Alloc.

(** [CodeGenValue] call by call: each of the five calls it makes either
    ends the run by its exception or hands its result to the next one. *)
Lemma ConditionalNode_CodeGenValue_calls this s0 :
  let jcc := ConditionalNode.JCC this in
  let afterJump s1 :=
    emitting [EmitConditionalJump jcc (nextLabel s1)] (labelled s1) in
  let afterLabel s1 s3 :=
    emitting [Jmp (nextLabel s3); PlaceLabel (nextLabel s1)] (labelled s3) in
  ConditionalNode.CodeGenValue this s0
  = match FlagExpressionNode.CodeGenFlags (ConditionalNode.m_condition this) s0 with
    | (Thrown e, s1) => (Thrown e, s1)
    | (Return _, s1) =>
      match Node.CodeGen (ConditionalNode.m_falseExpression this) (afterJump s1) with
      | (Thrown e, s2) => (Thrown e, s2)
      | (Return falseValue, s2) =>
        match ConvertToDirect falseValue true s2 with
        | (Thrown e, s3) => (Thrown e, s3)
        | (Return rFalse, s3) =>
          match Node.CodeGen (ConditionalNode.m_trueExpression this)
                             (afterLabel s1 s3) with
          | (Thrown e, s4) => (Thrown e, s4)
          | (Return trueValue, s4) =>
            match ConvertToDirect trueValue false s4 with
            | (Thrown e, s5) => (Thrown e, s5)
            | (Return rTrue, s5) =>
                (Return falseValue,
                 emitting (unifyingMove rFalse rTrue ++ [PlaceLabel (nextLabel s3)]) s5)
            end
          end
        end
      end
    end.
Proof.
  intros jcc afterJump afterLabel. unfold ConditionalNode.CodeGenValue.
  unfold bind at 1.
  destruct (FlagExpressionNode.CodeGenFlags _ s0) as [[[]|e] s1]; [|reflexivity].
  run_own. run_own. fold jcc. fold (afterJump s1).
  unfold bind at 1.
  destruct (Node.CodeGen _ (afterJump s1)) as [[falseValue|e] s2]; [|reflexivity].
  unfold bind at 1.
  destruct (ConvertToDirect falseValue true s2) as [[rFalse|e] s3]; [|reflexivity].
  run_own. run_own. run_own. rewrite emitting_emitting. simpl app.
  fold (afterLabel s1 s3).
  unfold bind at 1.
  destruct (Node.CodeGen _ (afterLabel s1 s3)) as [[trueValue|e] s4]; [|reflexivity].
  unfold bind at 1.
  destruct (ConvertToDirect trueValue false s4) as [[rTrue|e] s5]; [|reflexivity].
  erewrite bind_returns by (apply unifyingMove_run).
  run_own. rewrite emitting_emitting. reflexivity.
Qed.

(** X2. [ConditionalNode::CodeGenValue] throws exactly when one of the
    five calls it makes does (the flags of the condition, the false
    expression, its conversion, the true expression, its conversion), the
    earlier ones having returned: it then throws that exception from the
    tree that call left.  The node never throws by itself, it emits
    nothing after the failing call, and what it has emitted before stays
    in the buffer. *)
Theorem ConditionalNode_CodeGenValue_throws this s0 e s' :
  let jcc := ConditionalNode.JCC this in
  let condition := ConditionalNode.m_condition this in
  let falseExpression := ConditionalNode.m_falseExpression this in
  let trueExpression := ConditionalNode.m_trueExpression this in
  let afterJump s1 :=
    emitting [EmitConditionalJump jcc (nextLabel s1)] (labelled s1) in
  let afterLabel s1 s3 :=
    emitting [Jmp (nextLabel s3); PlaceLabel (nextLabel s1)] (labelled s3) in
  ConditionalNode.CodeGenValue this s0 = (Thrown e, s')
  <-> (FlagExpressionNode.CodeGenFlags condition s0 = (Thrown e, s')
       \/ exists s1,
            FlagExpressionNode.CodeGenFlags condition s0 = (Return tt, s1)
            /\ (Node.CodeGen falseExpression (afterJump s1) = (Thrown e, s')
                \/ exists falseValue s2,
                     Node.CodeGen falseExpression (afterJump s1)
                     = (Return falseValue, s2)
                     /\ (ConvertToDirect falseValue true s2 = (Thrown e, s')
                         \/ exists rFalse s3,
                              ConvertToDirect falseValue true s2 = (Return rFalse, s3)
                              /\ (Node.CodeGen trueExpression (afterLabel s1 s3)
                                  = (Thrown e, s')
                                  \/ exists trueValue s4,
                                       Node.CodeGen trueExpression (afterLabel s1 s3)
                                       = (Return trueValue, s4)
                                       /\ ConvertToDirect trueValue false s4
                                          = (Thrown e, s'))))).
Proof.
  intros jcc condition falseExpression trueExpression afterJump afterLabel.
  subst afterJump afterLabel. rewrite ConditionalNode_CodeGenValue_calls.
  cbv zeta. fold jcc condition falseExpression trueExpression.
  destruct (FlagExpressionNode.CodeGenFlags condition s0) as [[[]|e1] s1] eqn:E1.
  2: { split; [intros H; left; congruence|].
       intros H. split_cases H; same_call; congruence. }
  destruct (Node.CodeGen falseExpression _) as [[falseValue|e2] s2] eqn:E2.
  2: { split; [|intros H; split_cases H; same_call; congruence].
       intros H. right. exists s1. split; [reflexivity|]. left. congruence. }
  destruct (ConvertToDirect falseValue true s2) as [[rFalse|e3] s3] eqn:E3.
  2: { split; [|intros H; split_cases H; same_call; congruence].
       intros H. right. exists s1. split; [reflexivity|]. right.
       exists falseValue, s2. split; [exact E2|]. left. congruence. }
  destruct (Node.CodeGen trueExpression _) as [[trueValue|e4] s4] eqn:E4.
  2: { split; [|intros H; split_cases H; same_call; congruence].
       intros H. right. exists s1. split; [reflexivity|]. right.
       exists falseValue, s2. split; [exact E2|]. right.
       exists rFalse, s3. split; [exact E3|]. left. congruence. }
  destruct (ConvertToDirect trueValue false s4) as [[rTrue|e5] s5] eqn:E5.
  - split; [discriminate|]. intros H. split_cases H; same_call; congruence.
  - split; [|intros H; split_cases H; same_call; congruence].
    intros H. right. exists s1. split; [reflexivity|]. right.
    exists falseValue, s2. split; [exact E2|]. right.
    exists rFalse, s3. split; [exact E3|]. right.
    exists trueValue, s4. split; [exact E4|]. congruence.
Qed.

End ConditionalNodeOutcomes.

Section RelationalOperatorNodeOutcomes.
Context {Alloc : Type} `{!TreeOps Alloc}.
Implicit Types s : ExpressionTree Alloc.
Implicit Types this : RelationalOperatorNode.t Alloc.

(** [CodeGenFlags] of a node that is not cached, call by call. *)
Lemma RelationalOperatorNode_CodeGenFlags_calls this s0 (leftFirst : bool) :
  IsCached (RelationalOperatorNode.self this) s0 = false ->
  leftFirst
  = (registerCount (Node.GetId (RelationalOperatorNode.m_right this)) s0
     <=? registerCount (Node.GetId (RelationalOperatorNode.m_left this)) s0) ->
  RelationalOperatorNode.CodeGenFlags this s0
  = match Node.CodeGen (if leftFirst then RelationalOperatorNode.m_left this
                        else RelationalOperatorNode.m_right this) s0 with
    | (Thrown e, s1) => (Thrown e, s1)
    | (Return v1, s1) =>
      match Node.CodeGen (if leftFirst then RelationalOperatorNode.m_right this
                          else RelationalOperatorNode.m_left this) s1 with
      | (Thrown e, s2) => (Thrown e, s2)
      | (Return v2, s2) =>
        match ConvertToDirect (if leftFirst then v1 else v2) false s2 with
        | (Thrown e, s3) => (Thrown e, s3)
        | (Return direct, s3) =>
            (Return tt,
             emitting [EmitFromStorage OpCode.Cmp direct
                         (if leftFirst then v2 else v1)] s3)
        end
      end
    end.
Proof.
  intros Hcached ->. unfold RelationalOperatorNode.CodeGenFlags.
  rewrite Hcached. destruct (_ <=? _); unfold bind;
    destruct (Node.CodeGen _ s0) as [[v1|e] s1]; try reflexivity;
    destruct (Node.CodeGen _ s1) as [[v2|e] s2]; try reflexivity;
    unfold ret; simpl fst; simpl snd;
    destruct (ConvertToDirect _ false s2) as [[direct|e] s3]; reflexivity.
Qed.

(** [CodeGenFlags] of a cached node. *)
Lemma RelationalOperatorNode_CodeGenFlags_cached_run this s (cached : Storage) :
  m_cache (nodeAt s (RelationalOperatorNode.self this)) = Some cached ->
  RelationalOperatorNode.CodeGenFlags this s
  = match GetDirectRegister cached (m_alloc s) with
    | Return direct =>
        (Thrown (ThrowInt 0),
         emitting [Emit OpCode.Or direct direct]
           (withNode (RelationalOperatorNode.self this) releaseCache s))
    | Thrown e => (Thrown e, withNode (RelationalOperatorNode.self this) releaseCache s)
    end.
Proof.
  intros Hcache. unfold RelationalOperatorNode.CodeGenFlags.
  unfold IsCached. rewrite Hcache.
  unfold bind at 1. unfold GetCache. rewrite Hcache.
  unfold bind at 1. unfold ReleaseCache.
  unfold bind at 1. unfold getDirectRegister.
  change (m_alloc (withNode (RelationalOperatorNode.self this) releaseCache s))
    with (m_alloc s).
  destruct (GetDirectRegister cached (m_alloc s)); reflexivity.
Qed.

(** X3. For a node whose result is not cached,
    [RelationalOperatorNode::CodeGenFlags] throws exactly when the operand
    evaluated first, the operand evaluated second or the conversion of the
    left value to a register throws, the earlier calls having returned;
    it throws that exception from the tree that call left, so that after a
    failure of the first operand the second is never evaluated, and in no
    case is the compare emitted. *)
Theorem RelationalOperatorNode_CodeGenFlags_throws this s0 e s' :
  let left := RelationalOperatorNode.m_left this in
  let right := RelationalOperatorNode.m_right this in
  let leftFirst :=
    registerCount (Node.GetId right) s0 <=? registerCount (Node.GetId left) s0 in
  let first := if leftFirst then left else right in
  let second := if leftFirst then right else left in
  IsCached (RelationalOperatorNode.self this) s0 = false ->
  (RelationalOperatorNode.CodeGenFlags this s0 = (Thrown e, s')
   <-> (Node.CodeGen first s0 = (Thrown e, s')
        \/ exists v1 s1,
             Node.CodeGen first s0 = (Return v1, s1)
             /\ (Node.CodeGen second s1 = (Thrown e, s')
                 \/ exists v2 s2,
                      Node.CodeGen second s1 = (Return v2, s2)
                      /\ ConvertToDirect (if leftFirst then v1 else v2) false s2
                         = (Thrown e, s')))).
Proof.
  intros left right leftFirst first second Hcached.
  rewrite (RelationalOperatorNode_CodeGenFlags_calls this s0 leftFirst Hcached eq_refl).
  fold left right. fold first second.
  destruct (Node.CodeGen first s0) as [[v1|e1] s1] eqn:E1.
  2: { split; [intros H; left; congruence|].
       intros H. split_cases H; same_call; congruence. }
  destruct (Node.CodeGen second s1) as [[v2|e2] s2] eqn:E2.
  2: { split; [|intros H; split_cases H; same_call; congruence].
       intros H. right. exists v1, s1. split; [reflexivity|]. left. congruence. }
  destruct (ConvertToDirect _ false s2) as [[direct|e3] s3] eqn:E3.
  - split; [discriminate|]. intros H. split_cases H; same_call; congruence.
  - split; [|intros H; split_cases H; same_call; congruence].
    intros H. right. exists v1, s1. split; [reflexivity|]. right.
    exists v2, s2. split; [exact E2|]. congruence.
Qed.

(** X4. On a node whose result is cached,
    [RelationalOperatorNode::CodeGenValue] throws the integer 0: it has
    allocated its two labels, which are never placed, released the cache
    and emitted the [Or] of the cached register with itself; no operand is
    evaluated, no result register is allocated, and no jump and no move is
    emitted. *)
Theorem RelationalOperatorNode_CodeGenValue_cached this s
    (cached : Storage) (direct : Register) :
  let self := RelationalOperatorNode.self this in
  m_cache (nodeAt s self) = Some cached ->
  GetDirectRegister cached (m_alloc s) = Return direct ->
  let s' :=
    emitting [Emit OpCode.Or direct direct]
      (withNode self releaseCache (labelled (labelled s))) in
  RelationalOperatorNode.CodeGenValue this s = (Thrown (ThrowInt 0), s')
  /\ emitted s' = emitted s ++ [Emit OpCode.Or direct direct]
  /\ nextLabel s' = S (S (nextLabel s))
  /\ m_alloc s' = m_alloc s
  /\ IsCached self s' = false.
Proof.
  intros self Hcache Hdirect s'. split; [|split; [|split; [|split]]].
  - unfold RelationalOperatorNode.CodeGenValue. run_own. run_own.
    erewrite bind_throws; [reflexivity|].
    rewrite (RelationalOperatorNode_CodeGenFlags_cached_run this _ cached)
      by exact Hcache.
    change (m_alloc (labelled (labelled s))) with (m_alloc s).
    now rewrite Hdirect.
  - reflexivity.
  - reflexivity.
  - reflexivity.
  - unfold IsCached, s'.
    change (nodeAt (emitting ?i ?t) ?n) with (nodeAt t n).
    rewrite nodeAt_withNode_same; [reflexivity|].
    apply (cached_in_tree s self cached Hcache).
Qed.

End RelationalOperatorNodeOutcomes.

Section ConditionalOverComparison.
Context {Alloc : Type} `{!TreeOps Alloc}.
Implicit Types s : ExpressionTree Alloc.

(** X5. A conditional whose condition is a [RelationalOperatorNode] with a
    cached result cannot be generated: [ConditionalNode::CodeGenValue]
    throws the integer 0 of the condition's [CodeGenFlags].  The buffer
    has received the [Or] of the cached register with itself and nothing
    else, the cache of the condition is released, no label has been
    allocated, and neither branch has been evaluated. *)
Theorem ConditionalNode_cached_condition
    (this : ConditionalNode.t Alloc) (relational : RelationalOperatorNode.t Alloc)
    (codeGen : M Alloc Storage) s (cached : Storage) (direct : Register) :
  let condition := RelationalOperatorNode.self relational in
  ConditionalNode.m_condition this
  = RelationalOperatorNode.asFlagNode relational codeGen ->
  m_cache (nodeAt s condition) = Some cached ->
  GetDirectRegister cached (m_alloc s) = Return direct ->
  let s' :=
    emitting [Emit OpCode.Or direct direct] (withNode condition releaseCache s) in
  ConditionalNode.CodeGenValue this s = (Thrown (ThrowInt 0), s')
  /\ emitted s' = emitted s ++ [Emit OpCode.Or direct direct]
  /\ nextLabel s' = nextLabel s
  /\ m_alloc s' = m_alloc s
  /\ IsCached condition s' = false.
Proof.
  intros condition Hcondition Hcache Hdirect s'.
  split; [|split; [|split; [|split]]]; try reflexivity.
  - rewrite ConditionalNode_CodeGenValue_calls. cbv zeta.
    rewrite Hcondition. simpl FlagExpressionNode.CodeGenFlags.
    rewrite (RelationalOperatorNode_CodeGenFlags_cached_run relational s cached)
      by exact Hcache.
    now rewrite Hdirect.
  - unfold IsCached, s'.
    change (nodeAt (emitting ?i ?t) ?n) with (nodeAt t n).
    rewrite nodeAt_withNode_same; [reflexivity|].
    apply (cached_in_tree s condition cached Hcache).
Qed.

(** X6. A conditional over a comparison that is not cached takes the
    flags straight from the compare: the operands of the comparison are
    evaluated (the one with the higher register count first), the left
    value is converted to a register, the [Cmp] is emitted, and the
    conditional jump of the conditional follows it at once; then come the
    false expression, the jump to the end, the true expression and the
    unifying move, as for any conditional.  The comparison's own
    [CodeGen] is not called: no register is allocated for the condition
    and no 0 or 1 is moved into one. *)
Theorem ConditionalNode_over_comparison
    (this : ConditionalNode.t Alloc) (relational : RelationalOperatorNode.t Alloc)
    (codeGen : M Alloc Storage) s0 s1 s2 s3 s4 s5 s6 s7
    (c1 c2 cDirect cFalse cDirectFalse cTrue cDirectTrue : list Instr)
    (v1 v2 falseValue trueValue : Storage) (direct rFalse rTrue : Register) :
  let jcc := ConditionalNode.JCC this in
  let left := RelationalOperatorNode.m_left relational in
  let right := RelationalOperatorNode.m_right relational in
  let leftFirst :=
    registerCount (Node.GetId right) s0 <=? registerCount (Node.GetId left) s0 in
  let compare :=
    EmitFromStorage OpCode.Cmp direct (if leftFirst then v2 else v1) in
  let l1 := nextLabel s3 in
  let l2 := nextLabel s5 in
  ConditionalNode.m_condition this
  = RelationalOperatorNode.asFlagNode relational codeGen ->
  IsCached (RelationalOperatorNode.self relational) s0 = false ->
  generates (Node.CodeGen (if leftFirst then left else right)) s0 c1 v1 s1 ->
  generates (Node.CodeGen (if leftFirst then right else left)) s1 c2 v2 s2 ->
  generates (ConvertToDirect (if leftFirst then v1 else v2) false)
            s2 cDirect direct s3 ->
  generates (Node.CodeGen (ConditionalNode.m_falseExpression this))
            (emitting [EmitConditionalJump jcc l1] (labelled (emitting [compare] s3)))
            cFalse falseValue s4 ->
  generates (ConvertToDirect falseValue true) s4 cDirectFalse rFalse s5 ->
  generates (Node.CodeGen (ConditionalNode.m_trueExpression this))
            (emitting [Jmp l2; PlaceLabel l1] (labelled s5))
            cTrue trueValue s6 ->
  generates (ConvertToDirect trueValue false) s6 cDirectTrue rTrue s7 ->
  generates (ConditionalNode.CodeGenValue this) s0
            (c1 ++ c2 ++ cDirect
               ++ [compare; EmitConditionalJump jcc l1]
               ++ cFalse ++ cDirectFalse
               ++ [Jmp l2; PlaceLabel l1]
               ++ cTrue ++ cDirectTrue
               ++ unifyingMove rFalse rTrue
               ++ [PlaceLabel l2])
            falseValue
            (emitting (unifyingMove rFalse rTrue ++ [PlaceLabel l2]) s7).
Proof.
  intros jcc left right leftFirst compare l1 l2 Hcondition Hcached
         [H1 C1] [H2 C2] [H3 C3] [H4 C4] [H5 C5] [H6 C6] [H7 C7].
  split.
  - rewrite ConditionalNode_CodeGenValue_calls. cbv zeta.
    rewrite Hcondition. simpl FlagExpressionNode.CodeGenFlags.
    rewrite (RelationalOperatorNode_CodeGenFlags_calls relational s0 leftFirst
               Hcached eq_refl).
    fold left right. rewrite H1, H2, H3. fold compare. fold jcc.
    change (nextLabel (emitting [compare] s3)) with l1.
    rewrite H4, H5. fold l2. rewrite H6, H7. reflexivity.
  - rewrite emitted_emitting, C7, C6, emitted_emitting, emitted_labelled,
      C5, C4, emitted_emitting, emitted_labelled, emitted_emitting, C3, C2, C1.
    repeat rewrite <- app_assoc. reflexivity.
Qed.

End ConditionalOverComparison.

Section BufferDiscipline.
Context {Alloc : Type} `{!TreeOps Alloc}.
Implicit Types s : ExpressionTree Alloc.

Lemma advances_refl s : advances s s.
Proof. split; [reflexivity | split; [lia | tauto]]. Qed.

Lemma advances_trans s1 s2 s3 : advances s1 s2 -> advances s2 s3 -> advances s1 s3.
Proof.
  intros (P1 & L1 & A1) (P2 & L2 & A2).
  split; [etransitivity; eassumption | split; [lia | tauto]].
Qed.

Lemma advances_labelled s : advances s (labelled s).
Proof.
  split; [reflexivity | split; [unfold nextLabel; simpl; lia|]].
  unfold allocatedLabels. rewrite emitted_labelled.
  apply Forall_impl. intros i. apply Forall_impl. intros l.
  unfold nextLabel. simpl. lia.
Qed.

Lemma advances_emitting instrs s :
  Forall (fun i => Forall (fun l => (l < nextLabel s)%nat) (labelsOf i)) instrs ->
  advances s (emitting instrs s).
Proof.
  intros Hinstrs. split; [|split].
  - rewrite emitted_emitting. now apply prefix_app_r.
  - reflexivity.
  - unfold allocatedLabels. rewrite emitted_emitting. intros Hs.
    apply Forall_app. split; assumption.
Qed.

Lemma advances_withNode n f s : advances s (withNode n f s).
Proof. split; [reflexivity | split; [reflexivity | tauto]]. Qed.

Lemma advances_nextLabel s s' : advances s s' -> (nextLabel s <= nextLabel s')%nat.
Proof. now intros (_ & L & _). Qed.

Lemma unifyingMove_labels rFalse rTrue (n : nat) :
  Forall (fun i => Forall (fun l => (l < n)%nat) (labelsOf i))
         (unifyingMove rFalse rTrue).
Proof.
  unfold unifyingMove. destruct (IsSameHardwareRegister rTrue rFalse);
    repeat constructor.
Qed.

(** X7. [ConditionalNode::CodeGenValue] keeps the discipline of the code
    buffer however it ends, by its return or by an exception of one of
    its calls: the buffer is only appended to, no label is given back,
    and every label the buffer mentions (the targets of the two jumps and
    the two labels placed) has been allocated.  This holds as soon as the
    condition, the two branches and the conversions to a register keep
    the same discipline. *)
Theorem ConditionalNode_CodeGenValue_disciplined (this : ConditionalNode.t Alloc) :
  disciplined (FlagExpressionNode.CodeGenFlags (ConditionalNode.m_condition this)) ->
  disciplined (Node.CodeGen (ConditionalNode.m_falseExpression this)) ->
  disciplined (Node.CodeGen (ConditionalNode.m_trueExpression this)) ->
  (forall storage final, disciplined (ConvertToDirect storage final)) ->
  disciplined (ConditionalNode.CodeGenValue this).
Proof.
  intros Hcondition Hfalse Htrue Hconvert s0 outcome s' Hrun.
  rewrite ConditionalNode_CodeGenValue_calls in Hrun. cbv zeta in Hrun.
  destruct (FlagExpressionNode.CodeGenFlags _ s0) as [[[]|e1] s1] eqn:E1.
  2: { injection Hrun as <- <-. exact (Hcondition _ _ _ E1). }
  pose proof (Hcondition _ _ _ E1) as A1.
  set (jump := emitting _ (labelled s1)) in *.
  assert (AJ : advances s1 jump).
  { eapply advances_trans; [apply advances_labelled|].
    apply advances_emitting. repeat constructor. }
  destruct (Node.CodeGen _ jump) as [[falseValue|e2] s2] eqn:E2.
  2: { injection Hrun as <- <-.
       eauto using advances_trans. }
  pose proof (Hfalse _ _ _ E2) as A2.
  destruct (ConvertToDirect falseValue true s2) as [[rFalse|e3] s3] eqn:E3.
  2: { injection Hrun as <- <-.
       pose proof (Hconvert _ _ _ _ _ E3). eauto using advances_trans. }
  pose proof (Hconvert _ _ _ _ _ E3) as A3.
  set (label := emitting _ (labelled s3)) in *.
  assert (AL : advances s3 label).
  { eapply advances_trans; [apply advances_labelled|].
    apply advances_emitting.
    apply advances_nextLabel in A2, A3.
    change (nextLabel jump) with (S (nextLabel s1)) in A2.
    change (nextLabel (labelled s3)) with (S (nextLabel s3)).
    repeat constructor; lia. }
  destruct (Node.CodeGen _ label) as [[trueValue|e4] s4] eqn:E4.
  2: { injection Hrun as <- <-. eauto 8 using advances_trans. }
  pose proof (Htrue _ _ _ E4) as A4.
  destruct (ConvertToDirect trueValue false s4) as [[rTrue|e5] s5] eqn:E5.
  2: { injection Hrun as <- <-.
       pose proof (Hconvert _ _ _ _ _ E5). eauto 8 using advances_trans. }
  pose proof (Hconvert _ _ _ _ _ E5) as A5.
  injection Hrun as <- <-.
  assert (AE : advances s5
                 (emitting (unifyingMove rFalse rTrue ++ [PlaceLabel (nextLabel s3)]) s5)).
  { apply advances_emitting. apply Forall_app. split.
    - apply unifyingMove_labels.
    - apply advances_nextLabel in A4, A5.
      change (nextLabel label) with (S (nextLabel s3)) in A4.
      repeat constructor; lia. }
  eauto 10 using advances_trans.
Qed.

(** [CodeGenFlags] of a comparison keeps the discipline, on the cached
    path (which only emits the [Or]) as on the other. *)
Lemma RelationalOperatorNode_CodeGenFlags_disciplined
    (this : RelationalOperatorNode.t Alloc) :
  disciplined (Node.CodeGen (RelationalOperatorNode.m_left this)) ->
  disciplined (Node.CodeGen (RelationalOperatorNode.m_right this)) ->
  (forall storage final, disciplined (ConvertToDirect storage final)) ->
  disciplined (RelationalOperatorNode.CodeGenFlags this).
Proof.
  intros Hleft Hright Hconvert s0 outcome s' Hrun.
  destruct (m_cache (nodeAt s0 (RelationalOperatorNode.self this)))
    as [cached|] eqn:Hcache.
  - rewrite (RelationalOperatorNode_CodeGenFlags_cached_run this s0 cached Hcache)
      in Hrun.
    destruct (GetDirectRegister cached (m_alloc s0)); injection Hrun as <- <-.
    + eapply advances_trans; [apply advances_withNode|].
      apply advances_emitting. repeat constructor.
    + apply advances_withNode.
  - assert (Hcached : IsCached (RelationalOperatorNode.self this) s0 = false).
    { unfold IsCached. now rewrite Hcache. }
    rewrite (RelationalOperatorNode_CodeGenFlags_calls this s0 _ Hcached eq_refl)
      in Hrun.
    assert (Hfirst : forall b : bool,
      disciplined (Node.CodeGen (if b then RelationalOperatorNode.m_left this
                                 else RelationalOperatorNode.m_right this))).
    { intros []; assumption. }
    assert (Hsecond : forall b : bool,
      disciplined (Node.CodeGen (if b then RelationalOperatorNode.m_right this
                                 else RelationalOperatorNode.m_left this))).
    { intros []; assumption. }
    destruct (Node.CodeGen _ s0) as [[v1|e1] s1] eqn:E1.
    2: { injection Hrun as <- <-. exact (Hfirst _ _ _ _ E1). }
    pose proof (Hfirst _ _ _ _ E1) as A1.
    destruct (Node.CodeGen _ s1) as [[v2|e2] s2] eqn:E2.
    2: { injection Hrun as <- <-.
         pose proof (Hsecond _ _ _ _ E2). eauto using advances_trans. }
    pose proof (Hsecond _ _ _ _ E2) as A2.
    destruct (ConvertToDirect _ false s2) as [[direct|e3] s3] eqn:E3.
    2: { injection Hrun as <- <-.
         pose proof (Hconvert _ _ _ _ _ E3). eauto using advances_trans. }
    pose proof (Hconvert _ _ _ _ _ E3) as A3.
    injection Hrun as <- <-.
    eapply advances_trans; [|apply advances_emitting; repeat constructor].
    eauto using advances_trans.
Qed.

End BufferDiscipline.

Section ComparisonDiscipline.
Context {Alloc : Type} `{!TreeOps Alloc}.
Implicit Types s : ExpressionTree Alloc.
Implicit Types this : RelationalOperatorNode.t Alloc.

(** [CodeGenValue] of a comparison, call by call.  The register of the
    result is read twice from an allocator that no emit changes in
    between. *)
Lemma RelationalOperatorNode_CodeGenValue_calls this s0 :
  RelationalOperatorNode.CodeGenValue this s0
  = match RelationalOperatorNode.CodeGenFlags this (labelled (labelled s0)) with
    | (Thrown e, s1) => (Thrown e, s1)
    | (Return _, s1) =>
      match Direct s1 with
      | (Thrown e, s2) => (Thrown e, s2)
      | (Return result, s2) =>
        match GetDirectRegister result (m_alloc s2) with
        | Thrown e =>
            (Thrown e,
             emitting [EmitConditionalJump (RelationalOperatorNode.JCC this)
                         (nextLabel s0)] s2)
        | Return reg =>
            (Return result,
             emitting (booleanPattern (RelationalOperatorNode.JCC this) reg
                         (nextLabel s0) (S (nextLabel s0))) s2)
        end
      end
    end.
Proof.
  unfold RelationalOperatorNode.CodeGenValue. run_own. run_own.
  unfold bind at 1.
  destruct (RelationalOperatorNode.CodeGenFlags this _) as [[[]|e] s1];
    [|reflexivity].
  unfold bind at 1. destruct (Direct s1) as [[result|e] s2]; [|reflexivity].
  run_own. unfold bind at 1. unfold getDirectRegister at 1.
  rewrite m_alloc_emitting.
  destruct (GetDirectRegister result (m_alloc s2)) as [reg|e] eqn:Hreg;
    [|reflexivity].
  assert (Hget : forall instrs,
    getDirectRegister result (emitting instrs s2) = (Return reg, emitting instrs s2)).
  { intros instrs. unfold getDirectRegister. now rewrite m_alloc_emitting, Hreg. }
  run_own. run_own. run_own. repeat rewrite emitting_emitting.
  erewrite bind_returns by (apply Hget). run_own. run_own.
  repeat rewrite emitting_emitting. reflexivity.
Qed.

(** X8. [RelationalOperatorNode::CodeGenFlags] and
    [RelationalOperatorNode::CodeGenValue] keep the discipline of the code
    buffer however they end, by a return or by an exception, on the cached
    path as on the other: the buffer is only appended to, no label is
    given back, and every label the buffer mentions has been allocated.
    This holds as soon as the operands, the conversion to a register and
    the allocation of the result register keep the same discipline. *)
Theorem RelationalOperatorNode_CodeGen_disciplined this :
  disciplined (Node.CodeGen (RelationalOperatorNode.m_left this)) ->
  disciplined (Node.CodeGen (RelationalOperatorNode.m_right this)) ->
  (forall storage final, disciplined (ConvertToDirect storage final)) ->
  disciplined Direct ->
  disciplined (RelationalOperatorNode.CodeGenFlags this)
  /\ disciplined (RelationalOperatorNode.CodeGenValue this).
Proof.
  intros Hleft Hright Hconvert Hdirect.
  pose proof (RelationalOperatorNode_CodeGenFlags_disciplined this
                Hleft Hright Hconvert) as Hflags.
  split; [exact Hflags|].
  intros s0 outcome s' Hrun.
  rewrite RelationalOperatorNode_CodeGenValue_calls in Hrun.
  assert (A0 : advances s0 (labelled (labelled s0))).
  { eauto using advances_trans, advances_labelled. }
  destruct (RelationalOperatorNode.CodeGenFlags this _) as [[[]|e1] s1] eqn:E1.
  2: { injection Hrun as <- <-.
       pose proof (Hflags _ _ _ E1). eauto using advances_trans. }
  pose proof (Hflags _ _ _ E1) as A1.
  destruct (Direct s1) as [[result|e2] s2] eqn:E2.
  2: { injection Hrun as <- <-.
       pose proof (Hdirect _ _ _ E2). eauto using advances_trans. }
  pose proof (Hdirect _ _ _ E2) as A2.
  assert (Hlabels : (S (S (nextLabel s0)) <= nextLabel s2)%nat).
  { apply advances_nextLabel in A1, A2.
    change (nextLabel (labelled (labelled s0))) with (S (S (nextLabel s0))) in A1.
    lia. }
  destruct (GetDirectRegister result (m_alloc s2)) as [reg|e3];
    injection Hrun as <- <-.
  - assert (advances s2
              (emitting (booleanPattern (RelationalOperatorNode.JCC this) reg
                           (nextLabel s0) (S (nextLabel s0))) s2)).
    { apply advances_emitting. unfold booleanPattern. repeat constructor; lia. }
    eauto 8 using advances_trans.
  - assert (advances s2
              (emitting [EmitConditionalJump (RelationalOperatorNode.JCC this)
                           (nextLabel s0)] s2)).
    { apply advances_emitting. repeat constructor; lia. }
    eauto 8 using advances_trans.
Qed.


End ComparisonDiscipline.

(* ===================================================================== *)
(** * Properties of the register tests *)
(* ===================================================================== *)

Section RegisterLoops.
Import RegisterTests.
Context `{BitOps} (contract : BitOpsContract).

(** An invariant of the loop over the registers of a mask: it holds of
    the empty mask and the final state as soon as every round keeps it. *)
Lemma forEachRegister_invariant {St : Type} (I : N -> St -> Prop)
    (body : N -> St -> St) fuel : forall mask st st',
  (forall mask id st,
     I mask st -> GetLowestBitSet mask = Some id ->
     I (ClearBit mask id) (body id st)) ->
  I mask st ->
  forEachRegister fuel mask body st = Some st' ->
  I 0 st'.
Proof.
  induction fuel as [|fuel IH]; intros mask st st' Hstep Hinit; simpl;
    destruct (GetLowestBitSet mask) as [id|] eqn:Hlow; try discriminate.
  - intros [= <-]. now rewrite <- (lowest_none contract mask Hlow).
  - intros Hrun. eapply IH; [exact Hstep | | exact Hrun]. now apply Hstep.
  - intros [= <-]. now rewrite <- (lowest_none contract mask Hlow).
Qed.

Lemma bit_below_32 mask id :
  mask < 2 ^ 32 -> N.testbit mask id = true -> id < 32.
Proof.
  intros Hmask Hbit. destruct (N.lt_ge_cases id 32) as [Hlt|Hge]; [exact Hlt|].
  destruct (N.eq_dec mask 0) as [->|Hne].
  - now rewrite N.bits_0 in Hbit.
  - rewrite N.bits_above_log2 in Hbit; [discriminate|].
    apply N.lt_le_trans with 32; [|exact Hge].
    apply N.log2_lt_pow2; lia.
Qed.

Lemma elem_bitsOf mask id :
  mask < 2 ^ 32 -> (id ∈ bitsOf mask <-> N.testbit mask id = true).
Proof.
  intros Hmask. unfold bitsOf. rewrite list_elem_of_filter. split.
  - tauto.
  - intros Hbit. split; [exact Hbit|].
    pose proof (bit_below_32 mask id Hmask Hbit) as Hid.
    apply list_elem_of_fmap. exists (N.to_nat id). split; [lia|].
    apply elem_of_seq. lia.
Qed.

Lemma filter_length_lt {A} (P Q : A -> Prop)
    `{!forall x, Decision (P x)} `{!forall x, Decision (Q x)} (l : list A) x :
  (forall y, Q y -> P y) -> x ∈ l -> P x -> ~ Q x ->
  (length (filter Q l) < length (filter P l))%nat.
Proof.
  intros HQP Hx HPx HQx. induction l as [|y l IH]; [now apply elem_of_nil in Hx|].
  assert (Hle : (length (filter Q l) <= length (filter P l))%nat).
  { clear IH Hx. induction l as [|z l IH]; [reflexivity|].
    rewrite !filter_cons. destruct (decide (Q z)) as [Hz|Hz].
    - rewrite decide_True by auto. simpl. lia.
    - destruct (decide (P z)); simpl; lia. }
  rewrite !filter_cons. apply elem_of_cons in Hx. destruct Hx as [<-|Hx].
  - rewrite decide_False by exact HQx. rewrite decide_True by exact HPx.
    simpl. lia.
  - specialize (IH Hx). destruct (decide (Q y)) as [Hy|Hy].
    + rewrite decide_True by auto. simpl. lia.
    + destruct (decide (P y)); simpl; lia.
Qed.

Lemma ClearBit_below mask id : mask < 2 ^ 32 -> ClearBit mask id < 2 ^ 32.
Proof.
  intros Hmask. destruct (N.eq_dec (ClearBit mask id) 0) as [->|Hne]; [lia|].
  apply N.log2_lt_pow2; [lia|].
  destruct (N.lt_ge_cases (N.log2 (ClearBit mask id)) 32) as [Hlt|Hge];
    [exact Hlt|].
  pose proof (N.bit_log2 _ Hne) as Hbit.
  rewrite (clear_bit contract) in Hbit. apply andb_prop in Hbit.
  destruct Hbit as [Hbit _]. apply (bit_below_32 mask _ Hmask) in Hbit. lia.
Qed.

(** The loop ends: every round takes a bit away from the mask. *)
Lemma forEachRegister_rounds {St : Type} (body : N -> St -> St) fuel :
  forall mask st,
  mask < 2 ^ 32 ->
  (length (bitsOf mask) <= fuel)%nat ->
  is_Some (forEachRegister fuel mask body st).
Proof.
  induction fuel as [|fuel IH]; intros mask st Hmask Hfuel; simpl;
    destruct (GetLowestBitSet mask) as [id|] eqn:Hlow; eauto.
  - apply (lowest_set contract) in Hlow.
    apply (elem_bitsOf mask id Hmask) in Hlow.
    destruct (bitsOf mask); [now apply elem_of_nil in Hlow | simpl in Hfuel; lia].
  - apply IH; [now apply ClearBit_below|].
    pose proof (lowest_set contract mask id Hlow) as Hbit.
    assert ((length (bitsOf (ClearBit mask id)) < length (bitsOf mask))%nat);
      [|lia].
    unfold bitsOf. apply filter_length_lt with (x := id).
    + intros j. rewrite (clear_bit contract). intros Hj.
      now apply andb_prop in Hj.
    + apply list_elem_of_fmap. exists (N.to_nat id).
      pose proof (bit_below_32 mask id Hmask Hbit).
      split; [lia|]. apply elem_of_seq. lia.
    + exact Hbit.
    + rewrite (clear_bit contract), N.eqb_refl, andb_false_r. discriminate.
Qed.

Lemma forEachRegister_ends {St : Type} (body : N -> St -> St) fuel mask st :
  mask < 2 ^ 32 -> (32 <= fuel)%nat ->
  is_Some (forEachRegister fuel mask body st).
Proof.
  intros Hmask Hfuel. apply forEachRegister_rounds; [exact Hmask|].
  unfold bitsOf. etransitivity; [apply length_filter|].
  now rewrite length_map, length_seq.
Qed.

End RegisterLoops.

Section RegisterComparison.
Import RegisterTests.
Context `{BitOps}.

Lemma forEachRegister_ext {St : Type} (body1 body2 : N -> St -> St) fuel :
  (forall id st, body1 id st = body2 id st) ->
  forall mask st,
    forEachRegister fuel mask body1 st = forEachRegister fuel mask body2 st.
Proof.
  intros Hsame. induction fuel as [|fuel IH]; intros mask st; simpl;
    destruct (GetLowestBitSet mask); try reflexivity.
  now rewrite Hsame, IH.
Qed.

(** X10. The comparison that ends [RegisterPreservation] reads, of a
    vector register, the low quadword only, and reads it twice: its
    second [TestEqual] adds one to the two values the first has compared
    instead of moving on to the next entry.  The failures it reports are
    therefore the same for any two pairs of snapshots that agree on the
    integer registers and on the low quadwords, whatever the upper
    quadwords of the vector registers hold. *)
Theorem RegisterPreservation_ignores_upper_quadwords fuel
    (rxxMask xmmMask : N) (before after before' after' : RegInfo) :
  (forall id, m_rxx before' id = m_rxx before id) ->
  (forall id, m_rxx after' id = m_rxx after id) ->
  (forall id, m_xmm before' (2 * id) = m_xmm before (2 * id)) ->
  (forall id, m_xmm after' (2 * id) = m_xmm after (2 * id)) ->
  compareNonvolatiles fuel rxxMask xmmMask before' after'
  = compareNonvolatiles fuel rxxMask xmmMask before after.
Proof.
  intros Hrxx Hrxx' Hxmm Hxmm'. unfold compareNonvolatiles.
  rewrite (forEachRegister_ext
             (fun regId failures =>
                TestEqual (m_rxx before' regId) (m_rxx after' regId) (Rxx regId) failures)
             (fun regId failures =>
                TestEqual (m_rxx before regId) (m_rxx after regId) (Rxx regId) failures))
    by (intros id st; now rewrite Hrxx, Hrxx').
  destruct (forEachRegister fuel rxxMask _ []) as [failures|]; [|reflexivity].
  apply forEachRegister_ext. intros id st. now rewrite Hxmm, Hxmm'.
Qed.

Context (contract : BitOpsContract).

Lemma TestEqual_nil expected actual name failures :
  TestEqual expected actual name failures = []
  <-> failures = [] /\ expected = actual.
Proof.
  unfold TestEqual. destruct (Z.eqb_spec expected actual) as [Heq|Hne].
  - tauto.
  - split; [|tauto]. intros Hnil. now apply app_eq_nil in Hnil as [_ ?].
Qed.

(** A loop of checks reports nothing exactly when it was handed no
    failure and every register of the mask passes its check. *)
Lemma checks_verdict (ok : N -> Prop)
    (check : N -> list FrameRegister -> list FrameRegister) fuel orig fs0 fs :
  (forall id failures, check id failures = [] <-> failures = [] /\ ok id) ->
  forEachRegister fuel orig check fs0 = Some fs ->
  (fs = [] <-> fs0 = [] /\ forall id, N.testbit orig id = true -> ok id).
Proof.
  intros Hcheck Hrun.
  pose (I := fun (mask : N) (failures : list FrameRegister) =>
    (forall j, N.testbit mask j = true -> N.testbit orig j = true)
    /\ (failures = []
        <-> fs0 = []
            /\ forall id, N.testbit orig id = true ->
                 N.testbit mask id = false -> ok id)).
  assert (Hfinal : I 0 fs).
  { eapply (forEachRegister_invariant contract I check fuel orig fs0 fs);
      [|split|exact Hrun].
    - intros mask id failures [Hsub Hiff] Hlow.
      pose proof (lowest_set contract mask id Hlow) as Hbit. split.
      + intros j. rewrite (clear_bit contract). intros Hj.
        apply andb_prop in Hj. now apply Hsub.
      + rewrite Hcheck, Hiff. split.
        * intros [[Hfs0 Hvisited] Hid]. split; [exact Hfs0|].
          intros id' Horig. rewrite (clear_bit contract).
          destruct (N.eqb_spec id' id) as [->|Hne]; [auto|].
          rewrite andb_true_r. now apply Hvisited.
        * intros [Hfs0 Hvisited]. split; [split; [exact Hfs0|]|].
          -- intros id' Horig Hmask. apply Hvisited; [exact Horig|].
             rewrite (clear_bit contract), Hmask. reflexivity.
          -- apply Hvisited; [now apply Hsub|].
             now rewrite (clear_bit contract), N.eqb_refl, andb_false_r.
    - intros j Hj. exact Hj.
    - split; [intros Hfs0 | intros [Hfs0 _]; exact Hfs0].
      split; [exact Hfs0|]. intros id Horig Hmask. congruence. }
  destruct Hfinal as [_ Hiff]. rewrite Hiff. split.
  - intros [Hfs0 Hall]. split; [exact Hfs0|]. intros id Horig.
    apply Hall; [exact Horig | apply N.bits_0].
  - intros [Hfs0 Hall]. split; [exact Hfs0|]. auto.
Qed.

(** X11. What [RegisterPreservation] checks in the end.  For masks of 32
    bits the comparison ends, and it reports no failure exactly when the
    two snapshots agree on every integer register of the integer mask and
    on the low quadword of every vector register of the vector mask; no
    other entry of the snapshots has any part in the verdict. *)
Theorem RegisterPreservation_verdict fuel (rxxMask xmmMask : N)
    (before after : RegInfo) :
  rxxMask < 2 ^ 32 -> xmmMask < 2 ^ 32 -> (32 <= fuel)%nat ->
  exists failures,
    compareNonvolatiles fuel rxxMask xmmMask before after = Some failures
    /\ (failures = []
        <-> (forall id, N.testbit rxxMask id = true ->
               m_rxx before id = m_rxx after id)
            /\ (forall id, N.testbit xmmMask id = true ->
                  m_xmm before (2 * id) = m_xmm after (2 * id))).
Proof.
  intros Hrxx Hxmm Hfuel. unfold compareNonvolatiles.
  destruct (forEachRegister_ends contract
              (fun regId failures =>
                 TestEqual (m_rxx before regId) (m_rxx after regId) (Rxx regId) failures)
              fuel rxxMask [] Hrxx Hfuel) as [fs1 Hrun1].
  rewrite Hrun1.
  destruct (forEachRegister_ends contract
              (fun regId failures =>
                 TestEqual (Machine.wrap64 (m_xmm before (2 * regId) + 1))
                           (Machine.wrap64 (m_xmm after (2 * regId) + 1))
                           (Xmm regId)
                   (TestEqual (m_xmm before (2 * regId)) (m_xmm after (2 * regId))
                              (Xmm regId) failures))
              fuel xmmMask fs1 Hxmm Hfuel) as [fs2 Hrun2].
  exists fs2. split; [exact Hrun2|].
  apply (checks_verdict (fun id => m_rxx before id = m_rxx after id)) in Hrun1;
    [|intros id failures; apply TestEqual_nil].
  apply (checks_verdict (fun id => m_xmm before (2 * id) = m_xmm after (2 * id)))
    in Hrun2.
  - rewrite Hrun2, Hrun1. tauto.
  - intros id failures. rewrite !TestEqual_nil. split; [tauto|].
    intros [Hnil Heq]. rewrite Heq. tauto.
Qed.

End RegisterComparison.

Section Garbage.
Import RegisterTests.
Context `{BitOps} (contract : BitOpsContract).

Lemma execAll_app code1 code2 m :
  execAll (code1 ++ code2) m = execAll code2 (execAll code1 m).
Proof. unfold execAll. apply foldl_app. Qed.

(** Code that writes no integer register but those of [writable], RSP
    excepted, leaves the stack pointer and the memory as they are. *)
Lemma garbage_run (allowed : BodyInstr -> Prop) code :
  (forall dest value, allowed (MovImmediate dest value) -> dest <> 4) ->
  Forall allowed code ->
  forall m,
    Machine.rspValue (execAll code m) = Machine.rspValue m
    /\ Machine.memory (execAll code m) = Machine.memory m.
Proof.
  intros Hrsp Hcode. induction Hcode as [|i code Hi _ IH]; intros m.
  - split; reflexivity.
  - change (execAll (i :: code) m) with (execAll code (exec i m)).
    destruct (IH (exec i m)) as [IHrsp IHmem]. rewrite IHrsp, IHmem.
    destruct i as [dest value|dest source]; simpl.
    + split; [|reflexivity]. unfold Machine.rspValue. simpl.
      apply fn_lookup_insert_ne. apply (Hrsp dest value Hi).
    + split; reflexivity.
Qed.

(** X12. [FillAllWritableRegistersWithGarbage], when RAX is writable as
    it asserts, ends and emits only moves of an immediate into integer
    registers of the writable mask other than RSP, and moves into vector
    registers of the writable vector mask from the integer register whose
    id is that of the vector register modulo 16.  The code it emits
    therefore hands the stack pointer back and writes no memory: it is a
    body that keeps the save area of any frame. *)
Theorem garbage_keeps_the_frame fuel
    (c_rxxWritableRegistersMask c_xmmWritableRegistersMask : N)
    (m_uniformUInt64 : N -> Z) (buffer : list BodyInstr) (drawn : N) :
  c_rxxWritableRegistersMask < 2 ^ 32 ->
  c_xmmWritableRegistersMask < 2 ^ 32 ->
  (32 <= fuel)%nat ->
  N.testbit c_rxxWritableRegistersMask 0 = true ->
  let allowed (i : BodyInstr) :=
    match i with
    | MovImmediate dest _ =>
        N.testbit c_rxxWritableRegistersMask dest = true /\ dest <> 4
    | MovToXmm dest source =>
        N.testbit c_xmmWritableRegistersMask dest = true
        /\ source = dest mod 16
    end in
  exists garbage drawn',
    FillAllWritableRegistersWithGarbage fuel c_rxxWritableRegistersMask
      c_xmmWritableRegistersMask m_uniformUInt64 (buffer, drawn)
    = Some (inr (buffer ++ garbage, drawn'))
    /\ Forall allowed garbage
    /\ forall (l : FunctionSpecification.Layout) (m1 : Machine.t),
         Machine.keepsFrame l (execAll garbage) m1.
Proof.
  intros Hrxx Hxmm Hfuel Hrax allowed.
  unfold FillAllWritableRegistersWithGarbage.
  set (regMask := N.ldiff c_rxxWritableRegistersMask (N.shiftl 1 4)).
  assert (Hbits : forall id, N.testbit regMask id = true ->
            N.testbit c_rxxWritableRegistersMask id = true /\ id <> 4).
  { intros id. unfold regMask. rewrite N.ldiff_spec. intros Hid.
    apply andb_prop in Hid. destruct Hid as [Hid Hrsp]. split; [exact Hid|].
    intros ->. discriminate. }
  assert (Hassert : (N.land regMask (N.shiftl 1 0) =? 0) = false).
  { apply N.eqb_neq. change (N.shiftl 1 0) with (N.ones 1).
    rewrite N.land_ones. change (2 ^ 1) with 2. rewrite <- N.bit0_mod.
    unfold regMask. rewrite N.ldiff_spec, Hrax. discriminate. }
  rewrite Hassert.
  assert (HregMask : regMask < 2 ^ 32).
  { unfold regMask. pose proof (N.ldiff_le_l c_rxxWritableRegistersMask (N.shiftl 1 4)).
    lia. }
  pose (I := fun (orig : N) (mask : N) (code : list BodyInstr * N) =>
    (forall j, N.testbit mask j = true -> N.testbit orig j = true)
    /\ exists garbage, code.1 = buffer ++ garbage /\ Forall allowed garbage).
  (* the integer registers *)
  set (body1 := fun (regId : N) (code : list BodyInstr * N) =>
    (code.1 ++ [MovImmediate regId (m_uniformUInt64 code.2)], code.2 + 1)).
  destruct (forEachRegister_ends contract body1 fuel regMask (buffer, drawn)
              HregMask Hfuel) as [code1 Hrun1].
  rewrite Hrun1.
  assert (H1 : I regMask 0 code1).
  { eapply (forEachRegister_invariant contract (I regMask) body1 fuel regMask);
      [|split|exact Hrun1].
    - intros mask id code [Hsub (garbage & Hcode & Hgarbage)] Hlow.
      pose proof (lowest_set contract mask id Hlow) as Hbit. split.
      + intros j. rewrite (clear_bit contract). intros Hj.
        apply andb_prop in Hj. now apply Hsub.
      + exists (garbage ++ [MovImmediate id (m_uniformUInt64 code.2)]).
        split; [simpl; now rewrite Hcode, <- app_assoc|].
        apply Forall_app. split; [exact Hgarbage|].
        constructor; [|constructor]. simpl. apply Hbits. now apply Hsub.
    - intros j Hj. exact Hj.
    - exists []. split; [simpl; now rewrite app_nil_r | constructor]. }
  destruct H1 as [_ (garbage1 & Hcode1 & Hgarbage1)].
  (* the vector registers *)
  set (body2 := fun (regId : N) (code : list BodyInstr * N) =>
    let someRxxRegister := regId mod (15 + 1) in
    (code.1 ++ [MovToXmm regId someRxxRegister], code.2)).
  destruct (forEachRegister_ends contract body2 fuel c_xmmWritableRegistersMask
              code1 Hxmm Hfuel) as [code2 Hrun2].
  rewrite Hrun2.
  assert (H2 : I c_xmmWritableRegistersMask 0 code2).
  { eapply (forEachRegister_invariant contract (I c_xmmWritableRegistersMask)
              body2 fuel c_xmmWritableRegistersMask);
      [|split|exact Hrun2].
    - intros mask id code [Hsub (garbage & Hcode & Hgarbage)] Hlow.
      pose proof (lowest_set contract mask id Hlow) as Hbit. split.
      + intros j. rewrite (clear_bit contract). intros Hj.
        apply andb_prop in Hj. now apply Hsub.
      + exists (garbage ++ [MovToXmm id (id mod (15 + 1))]).
        split; [simpl; now rewrite Hcode, <- app_assoc|].
        apply Forall_app. split; [exact Hgarbage|].
        constructor; [|constructor]. simpl. split; [now apply Hsub | reflexivity].
    - intros j Hj. exact Hj.
    - exists garbage1. split; assumption. }
  destruct H2 as [_ (garbage & Hcode2 & Hgarbage)].
  exists garbage, code2.2. split; [|split].
  - rewrite <- Hcode2. now destruct code2.
  - exact Hgarbage.
  - intros l m1.
    destruct (garbage_run allowed garbage) with (m := m1) as [Hrsp Hmem];
      [|exact Hgarbage|].
    + intros dest value [_ Hdest]. exact Hdest.
    + split; [exact Hrsp|]. intros slot _. now rewrite Hmem.
Qed.

End Garbage.

Section Snapshot.
Import RegisterTests.
Context `{BitOps} (contract : BitOpsContract).
Local Open Scope Z_scope.

(** The loop visits the registers of the mask, all of them and no
    other. *)
Lemma forEachRegister_visits {St : Type} (body : N -> St -> St) fuel :
  forall (mask : N) st st',
  forEachRegister fuel mask body st = Some st' ->
  exists ids,
    st' = foldl (fun st id => body id st) st ids
    /\ forall id, id ∈ ids <-> N.testbit mask id = true.
Proof.
  assert (Hempty : forall (mask : N) st st',
    GetLowestBitSet mask = None -> Some st = Some st' ->
    exists ids, st' = foldl (fun st id => body id st) st ids
                /\ forall id, id ∈ ids <-> N.testbit mask id = true).
  { intros mask st st' Hlow [= <-]. exists []. split; [reflexivity|].
    intros id. rewrite (lowest_none contract mask Hlow), N.bits_0.
    split; [intros Hin; now apply elem_of_nil in Hin | discriminate]. }
  induction fuel as [|fuel IH]; intros mask st st'; simpl;
    destruct (GetLowestBitSet mask) as [id|] eqn:Hlow;
    try discriminate; try (now apply Hempty).
  intros Hrun. destruct (IH _ _ _ Hrun) as (ids & -> & Hids).
  exists (id :: ids). split; [reflexivity|].
  intros j. rewrite elem_of_cons, Hids, (clear_bit contract).
  pose proof (lowest_set contract mask id Hlow) as Hbit.
  destruct (N.eqb_spec j id) as [->|Hne].
  - rewrite andb_false_r. split; [intros [_|?]; [exact Hbit | discriminate] | auto].
  - rewrite andb_true_r. split; [intros [?|?]; [contradiction | assumption] | auto].
Qed.

Lemma foldl_appending {A B} (f : B -> list A) (ids : list B) (code : list A) :
  foldl (fun code id => code ++ f id) code ids = code ++ concat (map f ids).
Proof.
  revert code. induction ids as [|id ids IH]; intros code; simpl.
  - now rewrite app_nil_r.
  - now rewrite IH, <- app_assoc.
Qed.

Lemma RegisterTests_run_app instrs1 instrs2 m :
  Forall (fun i => i <> FRet) instrs1 ->
  run (instrs1 ++ instrs2) m
  = match run instrs1 m with
    | Some m' => run instrs2 m'
    | None => None
    end.
Proof.
  intros Hinstrs. revert m. induction Hinstrs as [|i rest Hi _ IH]; intros m.
  - reflexivity.
  - assert (Hcons : forall tl,
      run (i :: tl) m
      = match step i m with Some m' => run tl m' | None => None end).
    { intros tl. destruct i; try reflexivity. contradiction. }
    change ((i :: rest) ++ instrs2) with (i :: (rest ++ instrs2)).
    rewrite !Hcons. destruct (step i m); auto.
Qed.

Lemma in_range_wrap64 (regInfo a : Z) :
  0 <= regInfo -> regInfo + 384 <= 2 ^ 64 -> regInfo <= a < regInfo + 384 ->
  Machine.wrap64 a = a.
Proof. intros. unfold Machine.wrap64. apply Z.mod_small. lia. Qed.

Section At.
Variable regInfo : Z.
Hypothesis Haligned : regInfo mod 16 = 0.
Hypothesis Hlow : 0 <= regInfo.
Hypothesis Hhigh : regInfo + 384 <= 2 ^ 64.

Lemma save_rxx_run (m : Machine.t) (id : N) :
  id <> 0%N -> (id < 16)%N ->
  let a := addressOf_m_rxx regInfo id in
  run [FImmediate OpCode.Mov rax a; FStore OpCode.Mov rax 0 (Rxx id)] m
  = Some (Machine.store a (Machine.rxxValue m id) (Machine.setRxx 0 a m)).
Proof.
  intros Hid Hlt a.
  assert (Ha : Machine.wrap64 a = a).
  { apply (in_range_wrap64 regInfo); [assumption..|].
    unfold a, addressOf_m_rxx. lia. }
  simpl. rewrite Ha. unfold Machine.address. simpl.
  rewrite fn_lookup_insert, Z.add_0_r, Ha.
  now rewrite fn_lookup_insert_ne by congruence.
Qed.

Lemma save_xmm_run (m : Machine.t) (id : N) :
  (id < 16)%N ->
  let a := addressOf_m_xmm regInfo (2 * id) in
  run [FImmediate OpCode.Mov rax a; FStore OpCode.MovAligned128 rax 0 (Xmm id)] m
  = Some (Machine.store (addressOf_m_xmm regInfo (2 * id + 1))
            (Machine.xmmValue m id).2
            (Machine.store a (Machine.xmmValue m id).1 (Machine.setRxx 0 a m))).
Proof.
  intros Hlt a.
  assert (Ha : Machine.wrap64 a = a).
  { apply (in_range_wrap64 regInfo); [assumption..|].
    unfold a, addressOf_m_xmm. lia. }
  assert (Ha8 : Machine.wrap64 (a + 8) = addressOf_m_xmm regInfo (2 * id + 1)).
  { unfold a, addressOf_m_xmm.
    replace (regInfo + 8 * Z.of_N (2 * id) + 8)
      with (regInfo + 8 * Z.of_N (2 * id + 1)) by lia.
    apply (in_range_wrap64 regInfo); [assumption..|]. lia. }
  assert (Hmod : a mod 16 = 0).
  { unfold a, addressOf_m_xmm.
    replace (regInfo + 8 * Z.of_N (2 * id)) with (regInfo + Z.of_N id * 16) by lia.
    now rewrite Z.mod_add by lia. }
  simpl. rewrite Ha. unfold Machine.address. simpl.
  rewrite fn_lookup_insert, Z.add_0_r, Ha, Hmod. simpl.
  now rewrite Ha8.
Qed.

Lemma rxx_saves_run ids : forall m : Machine.t,
  Forall (fun id => id <> 0%N /\ (id < 16)%N) ids ->
  exists m',
    run (concat (map (fun id =>
           [FImmediate OpCode.Mov rax (addressOf_m_rxx regInfo id);
            FStore OpCode.Mov rax 0 (Rxx id)]) ids)) m = Some m'
    /\ (forall id, id <> 0%N -> Machine.rxxValue m' id = Machine.rxxValue m id)
    /\ Machine.xmmValue m' = Machine.xmmValue m
    /\ (forall id, id ∈ ids ->
          Machine.memory m' (addressOf_m_rxx regInfo id) = Machine.rxxValue m id)
    /\ (forall a, (forall id, id ∈ ids -> a <> addressOf_m_rxx regInfo id) ->
          Machine.memory m' a = Machine.memory m a).
Proof.
  induction ids as [|id ids IH]; intros m Hids.
  - exists m. repeat split; try reflexivity.
    intros id Hin. now apply elem_of_nil in Hin.
  - apply Forall_cons_1 in Hids. destruct Hids as [[Hid Hlt] Hids].
    cbn [map concat].
    rewrite (RegisterTests_run_app [_; _]) by (repeat constructor; discriminate).
    rewrite save_rxx_run by assumption.
    set (a := addressOf_m_rxx regInfo id).
    set (m1 := Machine.store a _ _).
    destruct (IH m1 Hids) as (m' & Hrun & Hrxx & Hxmm & Hsaved & Helse).
    exists m'. split; [exact Hrun|]. split; [|split; [|split]].
    + intros j Hj. rewrite Hrxx by exact Hj. unfold m1. simpl.
      now rewrite fn_lookup_insert_ne by congruence.
    + rewrite Hxmm. reflexivity.
    + assert (Hm1 : forall j, j <> 0%N ->
                Machine.rxxValue m1 j = Machine.rxxValue m j).
      { intros j Hj. unfold m1. simpl.
        now rewrite fn_lookup_insert_ne by congruence. }
      intros j Hin. destruct (decide (j ∈ ids)) as [Hj|Hj].
      * rewrite (Hsaved j Hj). apply Hm1.
        now destruct (proj1 (list.Forall_forall _ _) Hids j Hj).
      * apply elem_of_cons in Hin. destruct Hin as [->|Hin]; [|contradiction].
        rewrite Helse.
        -- unfold m1. simpl. fold a. now rewrite fn_lookup_insert.
        -- intros k Hk Heq. unfold addressOf_m_rxx in Heq.
           assert (id = k) by lia. congruence.
    + intros b Hb. rewrite Helse.
      * unfold m1. simpl. rewrite fn_lookup_insert_ne; [reflexivity|].
        intros <-. apply (Hb id); [apply elem_of_cons; now left | reflexivity].
      * intros k Hk. apply Hb. apply elem_of_cons. now right.
Qed.

Lemma xmm_saves_run ids : forall m : Machine.t,
  Forall (fun id => (id < 16)%N) ids ->
  exists m',
    run (concat (map (fun id =>
           [FImmediate OpCode.Mov rax (addressOf_m_xmm regInfo (2 * id));
            FStore OpCode.MovAligned128 rax 0 (Xmm id)]) ids)) m = Some m'
    /\ (forall id, id <> 0%N -> Machine.rxxValue m' id = Machine.rxxValue m id)
    /\ Machine.xmmValue m' = Machine.xmmValue m
    /\ (forall id, id ∈ ids ->
          Machine.memory m' (addressOf_m_xmm regInfo (2 * id))
          = (Machine.xmmValue m id).1
          /\ Machine.memory m' (addressOf_m_xmm regInfo (2 * id + 1))
             = (Machine.xmmValue m id).2)
    /\ (forall a, (forall id, id ∈ ids ->
                     a <> addressOf_m_xmm regInfo (2 * id)
                     /\ a <> addressOf_m_xmm regInfo (2 * id + 1)) ->
          Machine.memory m' a = Machine.memory m a).
Proof.
  induction ids as [|id ids IH]; intros m Hids.
  - exists m. repeat split; try reflexivity;
      match goal with Hin : _ ∈ [] |- _ => now apply elem_of_nil in Hin end.
  - apply Forall_cons_1 in Hids. destruct Hids as [Hlt Hids].
    cbn [map concat].
    rewrite (RegisterTests_run_app [_; _]) by (repeat constructor; discriminate).
    rewrite save_xmm_run by assumption.
    set (a := addressOf_m_xmm regInfo (2 * id)).
    set (a8 := addressOf_m_xmm regInfo (2 * id + 1)).
    set (m1 := Machine.store a8 _ _).
    destruct (IH m1 Hids) as (m' & Hrun & Hrxx & Hxmm & Hsaved & Helse).
    exists m'. split; [exact Hrun|]. split; [|split; [|split]].
    + intros j Hj. rewrite Hrxx by exact Hj. unfold m1. simpl.
      now rewrite fn_lookup_insert_ne by congruence.
    + rewrite Hxmm. reflexivity.
    + intros j Hin. destruct (decide (j ∈ ids)) as [Hj|Hj].
      * exact (Hsaved j Hj).
      * apply elem_of_cons in Hin. destruct Hin as [->|Hin]; [|contradiction].
        assert (Hfar : forall k, k ∈ ids ->
                  forall b, b = a \/ b = a8 ->
                  b <> addressOf_m_xmm regInfo (2 * k)
                  /\ b <> addressOf_m_xmm regInfo (2 * k + 1)).
        { intros k Hk b Hb. assert (id <> k) by congruence.
          unfold a, a8, addressOf_m_xmm in *. destruct Hb as [->| ->]; split; lia. }
        rewrite !Helse by (intros k Hk; apply (Hfar k Hk); auto).
        unfold m1. simpl. fold a a8. rewrite fn_lookup_insert.
        rewrite fn_lookup_insert_ne by (unfold a, a8, addressOf_m_xmm; lia).
        now rewrite fn_lookup_insert.
    + intros b Hb. rewrite Helse.
      * destruct (Hb id) as [Hb1 Hb2]; [apply elem_of_cons; now left|].
        unfold m1. simpl.
        now rewrite !fn_lookup_insert_ne by (subst a a8; congruence).
      * intros k Hk. apply Hb. apply elem_of_cons. now right.
Qed.

End At.

Lemma concat_no_ret {A} (f : A -> list FrameInstr) (ids : list A) :
  (forall id, Forall (fun i => i <> FRet) (f id)) ->
  Forall (fun i => i <> FRet) (concat (map f ids)).
Proof.
  intros Hf. induction ids as [|id ids IH]; simpl; [constructor|].
  apply Forall_app. split; [apply Hf | exact IH].
Qed.

(** X14. [EmitSaveNonvolatilesCode], when RAX is volatile as it asserts,
    emits a function that takes a faithful snapshot: for a [RegInfo] that
    is 16-byte aligned, as its declaration demands, the function runs to
    its return without a fault of the aligned 128-bit moves; it leaves in
    [m_rxx] the value of every integer register of the mask and in
    [m_xmm] the two quadwords of every vector register of the mask; and
    it changes no register but RAX. *)
Theorem EmitSaveNonvolatilesCode_snapshot fuel
    (c_rxxWritableNonvolatilesMask c_xmmWritableNonvolatilesMask : N)
    (regInfo : Z) (buffer : list FrameInstr) (m : Machine.t) :
  (c_rxxWritableNonvolatilesMask < 2 ^ 16)%N ->
  (c_xmmWritableNonvolatilesMask < 2 ^ 16)%N ->
  (32 <= fuel)%nat ->
  N.testbit c_rxxWritableNonvolatilesMask 0 = false ->
  regInfo mod 16 = 0 -> 0 <= regInfo -> regInfo + 384 <= 2 ^ 64 ->
  exists code m',
    EmitSaveNonvolatilesCode fuel c_rxxWritableNonvolatilesMask
      c_xmmWritableNonvolatilesMask regInfo buffer
    = Some (Return (buffer ++ code))
    /\ run code m = Some m'
    /\ (forall id, N.testbit c_rxxWritableNonvolatilesMask id = true ->
          m_rxx (snapshot m' regInfo) id = Machine.rxxValue m id)
    /\ (forall id, N.testbit c_xmmWritableNonvolatilesMask id = true ->
          (m_xmm (snapshot m' regInfo) (2 * id),
           m_xmm (snapshot m' regInfo) (2 * id + 1))
          = Machine.xmmValue m id)
    /\ (forall id, id <> 0%N -> Machine.rxxValue m' id = Machine.rxxValue m id)
    /\ Machine.xmmValue m' = Machine.xmmValue m.
Proof.
  intros Hrxx Hxmm Hfuel Hrax Haligned Hlow Hhigh.
  assert (Hrxx32 : (c_rxxWritableNonvolatilesMask < 2 ^ 32)%N) by lia.
  assert (Hxmm32 : (c_xmmWritableNonvolatilesMask < 2 ^ 32)%N) by lia.
  unfold EmitSaveNonvolatilesCode.
  assert (Hassert :
    negb (N.land c_rxxWritableNonvolatilesMask (N.shiftl 1 0) =? 0)%N = false).
  { change (N.shiftl 1 0) with (N.ones 1). rewrite N.land_ones.
    change (2 ^ 1)%N with 2%N. now rewrite <- N.bit0_mod, Hrax. }
  rewrite Hassert.
  set (saveRxx := fun regId : N =>
    [FImmediate OpCode.Mov rax (addressOf_m_rxx regInfo regId);
     FStore OpCode.Mov rax 0 (Rxx regId)]).
  set (saveXmm := fun regId : N =>
    [FImmediate OpCode.Mov rax (addressOf_m_xmm regInfo (2 * regId));
     FStore OpCode.MovAligned128 rax 0 (Xmm regId)]).
  change (fun (regId : N) (code : list FrameInstr) =>
            code ++ [FImmediate OpCode.Mov rax (addressOf_m_rxx regInfo regId);
                     FStore OpCode.Mov rax 0 (Rxx regId)])
    with (fun (regId : N) (code : list FrameInstr) => code ++ saveRxx regId).
  change (fun (regId : N) (code : list FrameInstr) =>
            code ++ [FImmediate OpCode.Mov rax (addressOf_m_xmm regInfo (2 * regId));
                     FStore OpCode.MovAligned128 rax 0 (Xmm regId)])
    with (fun (regId : N) (code : list FrameInstr) => code ++ saveXmm regId).
  destruct (forEachRegister_ends contract
              (fun regId code => code ++ saveRxx regId)
              fuel c_rxxWritableNonvolatilesMask buffer Hrxx32 Hfuel)
    as [code1 Hrun1].
  rewrite Hrun1.
  destruct (forEachRegister_visits _ _ _ _ _ Hrun1) as (ids1 & Hcode1 & Hids1).
  rewrite (foldl_appending saveRxx) in Hcode1.
  destruct (forEachRegister_ends contract
              (fun regId code => code ++ saveXmm regId)
              fuel c_xmmWritableNonvolatilesMask code1 Hxmm32 Hfuel)
    as [code2 Hrun2].
  rewrite Hrun2.
  destruct (forEachRegister_visits _ _ _ _ _ Hrun2) as (ids2 & Hcode2 & Hids2).
  rewrite (foldl_appending saveXmm) in Hcode2.
  assert (Hall1 : Forall (fun id => id <> 0%N /\ (id < 16)%N) ids1).
  { apply list.Forall_forall. intros id Hid. apply Hids1 in Hid. split.
    - intros ->. congruence.
    - exact (testbit_register _ _ Hrxx Hid). }
  assert (Hall2 : Forall (fun id => (id < 16)%N) ids2).
  { apply list.Forall_forall. intros id Hid. apply Hids2 in Hid.
    exact (testbit_register _ _ Hxmm Hid). }
  destruct (rxx_saves_run regInfo Hlow Hhigh ids1 m Hall1)
    as (m1 & Hsave1 & Hrxx1 & Hxmm1 & Hsaved1 & _).
  destruct (xmm_saves_run regInfo Haligned Hlow Hhigh ids2 m1 Hall2)
    as (m2 & Hsave2 & Hrxx2 & Hxmm2 & Hsaved2 & Helse2).
  fold saveRxx in Hsave1. fold saveXmm in Hsave2.
  exists (concat (map saveRxx ids1) ++ concat (map saveXmm ids2) ++ [FRet]), m2.
  split; [|split; [|split; [|split; [|split]]]].
  - rewrite Hcode2, Hcode1. now rewrite <- !app_assoc.
  - rewrite RegisterTests_run_app, Hsave1
      by (apply concat_no_ret; intros id; repeat constructor; discriminate).
    rewrite RegisterTests_run_app, Hsave2
      by (apply concat_no_ret; intros id; repeat constructor; discriminate).
    reflexivity.
  - intros id Hid. apply Hids1 in Hid. simpl.
    rewrite Helse2.
    + now apply Hsaved1.
    + intros k Hk.
      pose proof (proj1 (list.Forall_forall _ _) Hall2 k Hk) as Hk16.
      pose proof (proj1 (list.Forall_forall _ _) Hall1 id Hid) as [_ Hid16].
      cbv beta in Hk16, Hid16.
      unfold addressOf_m_rxx, addressOf_m_xmm. split; lia.
  - intros id Hid. apply Hids2 in Hid. simpl.
    destruct (Hsaved2 id Hid) as [-> ->]. rewrite Hxmm1.
    now destruct (Machine.xmmValue m id).
  - intros id Hid. now rewrite Hrxx2, Hrxx1.
  - now rewrite Hxmm2, Hxmm1.
Qed.

End Snapshot.

(* ===================================================================== *)
(** * The further theorems at work on concrete inputs *)
(* ===================================================================== *)

Section LeafDiscipline.
Context {Alloc : Type} `{!TreeOps Alloc}.

Lemma disciplined_ret {A} (a : A) : disciplined (ret (Alloc := Alloc) a).
Proof. intros s outcome s' [= <- <-]. apply advances_refl. Qed.

Lemma disciplined_throw {A} e : disciplined (throw (Alloc := Alloc) (A := A) e).
Proof. intros s outcome s' [= <- <-]. apply advances_refl. Qed.

Lemma disciplined_bind {A B} (m : M Alloc A) (k : A -> M Alloc B) :
  disciplined m -> (forall a, disciplined (k a)) -> disciplined (bind m k).
Proof.
  intros Hm Hk s outcome s' Hrun. unfold bind in Hrun.
  destruct (m s) as [[a|e] s1] eqn:E.
  - eapply advances_trans; [exact (Hm _ _ _ E) | exact (Hk _ _ _ _ Hrun)].
  - injection Hrun as <- <-. exact (Hm _ _ _ E).
Qed.

Lemma disciplined_emit i : labelsOf i = [] -> disciplined (emit (Alloc := Alloc) i).
Proof.
  intros Hi s outcome s' [= <- <-]. apply advances_emitting.
  constructor; [|constructor]. rewrite Hi. constructor.
Qed.

Lemma disciplined_getDirectRegister (storage : Storage) :
  disciplined (getDirectRegister (Alloc := Alloc) storage).
Proof. intros s outcome s' [= <- <-]. apply advances_refl. Qed.

End LeafDiscipline.

Section FurtherNodeWitnesses.
Import SimpleTree.

Lemma SimpleTree_Direct_disciplined : disciplined (Direct (Alloc := Alloc)).
Proof.
  intros s outcome s' [= <- <-].
  split; [reflexivity | split; [reflexivity | tauto]].
Qed.

Lemma SimpleTree_ConvertToDirect_disciplined (storage : Storage) (final : bool) :
  disciplined (ConvertToDirect (Alloc := Alloc) storage final).
Proof. apply disciplined_ret. Qed.

Lemma SimpleTree_immediate_disciplined id value :
  disciplined (Node.CodeGen (immediate id value)).
Proof.
  simpl. apply disciplined_bind; [apply SimpleTree_Direct_disciplined|].
  intros st. apply disciplined_bind; [apply disciplined_getDirectRegister|].
  intros r. apply disciplined_bind; [now apply disciplined_emit|].
  intros _. apply disciplined_ret.
Qed.

(** Labelling [10 < 20] over the sample tree: two registers. *)
Lemma RelationalOperatorNode_LabelSubtree_run_witness :
  let s' :=
    emptyTree [mkNodeBase 1 1 None; mkNodeBase 1 1 None; mkNodeBase 0 2 None;
               emptyNode; emptyNode; emptyNode] in
  RelationalOperatorNode.LabelSubtree sampleRelational false sampleTree
    = (Return 2, s')
  /\ ((2 < 6)%nat -> registerCount 2%nat s' = 2)
  /\ m_code s' = m_code sampleTree
  /\ m_alloc s' = m_alloc sampleTree
  /\ (forall n, n <> 2%nat ->
        nodeAt s' n
        = nodeAt (emptyTree [mkNodeBase 1 1 None; mkNodeBase 1 1 None;
                             emptyNode; emptyNode; emptyNode; emptyNode]) n).
Proof.
  pose (this := sampleRelational).
  pose (s1 := (Node.LabelSubtree (RelationalOperatorNode.m_left this) true
                 sampleTree).2).
  pose (s2 := (Node.LabelSubtree (RelationalOperatorNode.m_right this) false s1).2).
  refine (RelationalOperatorNode_LabelSubtree_run this false sampleTree s1 s2 1 1
            _ _);
    reflexivity.
Defined.

(** [failing < 20]: the constant 20 goes first, the failing operand
    second; its exception ends [CodeGenFlags] with both moves in the
    buffer and no compare. *)
Lemma RelationalOperatorNode_CodeGenFlags_throws_witness :
  let this := RelationalOperatorNode.mk JL 2 (failing 0) (immediate 1 20) in
  let e := ThrowOther "out of registers" in
  let s' :=
    mkTree (mkCode [EmitImmediate OpCode.Mov 0 20; EmitImmediate OpCode.Mov 15 0] 0)
           sampleNodes 1 in
  RelationalOperatorNode.CodeGenFlags this sampleTree = (Thrown e, s')
  <-> (Node.CodeGen (immediate 1 20) sampleTree = (Thrown e, s')
       \/ exists v1 s1,
            Node.CodeGen (immediate 1 20) sampleTree = (Return v1, s1)
            /\ (Node.CodeGen (failing 0) s1 = (Thrown e, s')
                \/ exists v2 s2,
                     Node.CodeGen (failing 0) s1 = (Return v2, s2)
                     /\ ConvertToDirect v2 false s2 = (Thrown e, s'))).
Proof.
  intros this e s'.
  exact (RelationalOperatorNode_CodeGenFlags_throws this sampleTree e s' eq_refl).
Defined.

(** The cached comparison as a value: two labels, the [Or], the
    exception. *)
Lemma RelationalOperatorNode_CodeGenValue_cached_witness :
  let s' :=
    mkTree (mkCode [Emit OpCode.Or 7 7] 2)
           [mkNodeBase 1 1 None; mkNodeBase 1 2 None; mkNodeBase 2 2 None] 0 in
  RelationalOperatorNode.CodeGenValue sampleRelational cachedTree
    = (Thrown (ThrowInt 0), s')
  /\ emitted s' = emitted cachedTree ++ [Emit OpCode.Or 7 7]
  /\ nextLabel s' = S (S (nextLabel cachedTree))
  /\ m_alloc s' = m_alloc cachedTree
  /\ IsCached 2%nat s' = false.
Proof.
  refine (RelationalOperatorNode_CodeGenValue_cached sampleRelational cachedTree
            7%nat 7 _ _); reflexivity.
Defined.

(** The conditional over the cached comparison: the [Or], the exception,
    no label. *)
Lemma ConditionalNode_cached_condition_witness :
  let s' :=
    mkTree (mkCode [Emit OpCode.Or 7 7] 0)
           [mkNodeBase 1 1 None; mkNodeBase 1 2 None; mkNodeBase 2 2 None] 0 in
  ConditionalNode.CodeGenValue sampleConditional cachedTree
    = (Thrown (ThrowInt 0), s')
  /\ emitted s' = emitted cachedTree ++ [Emit OpCode.Or 7 7]
  /\ nextLabel s' = nextLabel cachedTree
  /\ m_alloc s' = m_alloc cachedTree
  /\ IsCached 2%nat s' = false.
Proof.
  refine (ConditionalNode_cached_condition sampleConditional sampleRelational
            (RelationalOperatorNode.CodeGenValue sampleRelational)
            cachedTree 7%nat 7 _ _ _); reflexivity.
Defined.

(** [(10 < 20) ? 1 : 2] over the sample tree. *)
Lemma ConditionalNode_over_comparison_witness :
  generates (ConditionalNode.CodeGenValue sampleConditional) sampleTree
    ([EmitImmediate OpCode.Mov 0 20] ++ [EmitImmediate OpCode.Mov 1 10] ++ []
       ++ [EmitFromStorage OpCode.Cmp 1 0%nat; EmitConditionalJump JL 0%nat]
       ++ [EmitImmediate OpCode.Mov 2 2] ++ []
       ++ [Jmp 1%nat; PlaceLabel 0%nat]
       ++ [EmitImmediate OpCode.Mov 3 1] ++ []
       ++ unifyingMove 2 3
       ++ [PlaceLabel 1%nat])
    2%nat
    (emitting (unifyingMove 2 3 ++ [PlaceLabel 1%nat])
       (mkTree
          (mkCode [EmitImmediate OpCode.Mov 0 20; EmitImmediate OpCode.Mov 1 10;
                   EmitFromStorage OpCode.Cmp 1 0%nat;
                   EmitConditionalJump JL 0%nat;
                   EmitImmediate OpCode.Mov 2 2;
                   Jmp 1%nat; PlaceLabel 0%nat;
                   EmitImmediate OpCode.Mov 3 1] 2)
          sampleNodes 4)).
Proof.
  pose (this := sampleConditional).
  pose (s1 := (Node.CodeGen (immediate 1 20) sampleTree).2).
  pose (s2 := (Node.CodeGen (immediate 0 10) s1).2).
  pose (s3 := (ConvertToDirect 1%nat false s2).2).
  pose (s4 := (Node.CodeGen (ConditionalNode.m_falseExpression this)
                 (emitting [EmitConditionalJump JL (nextLabel s3)]
                    (labelled (emitting [EmitFromStorage OpCode.Cmp 1 0%nat] s3)))).2).
  pose (s5 := (ConvertToDirect 2%nat true s4).2).
  pose (s6 := (Node.CodeGen (ConditionalNode.m_trueExpression this)
                 (emitting [Jmp (nextLabel s5); PlaceLabel (nextLabel s3)]
                           (labelled s5))).2).
  pose (s7 := (ConvertToDirect 3%nat false s6).2).
  refine (ConditionalNode_over_comparison this sampleRelational
            (RelationalOperatorNode.CodeGenValue sampleRelational)
            sampleTree s1 s2 s3 s4 s5 s6 s7
            [EmitImmediate OpCode.Mov 0 20] [EmitImmediate OpCode.Mov 1 10] []
            [EmitImmediate OpCode.Mov 2 2] []
            [EmitImmediate OpCode.Mov 3 1] []
            0%nat 1%nat 2%nat 3%nat 1 2 3 _ _ _ _ _ _ _ _ _);
    first [reflexivity | split; reflexivity].
Defined.

(** The discipline of the buffer on [(10 < 20) ? 1 : 2]. *)
Lemma ConditionalNode_CodeGenValue_disciplined_witness :
  advances sampleTree (ConditionalNode.CodeGenValue sampleConditional sampleTree).2.
Proof.
  refine (ConditionalNode_CodeGenValue_disciplined sampleConditional _ _ _ _
            sampleTree
            (ConditionalNode.CodeGenValue sampleConditional sampleTree).1
            (ConditionalNode.CodeGenValue sampleConditional sampleTree).2 _).
  - apply (RelationalOperatorNode_CodeGenFlags_disciplined sampleRelational).
    + apply SimpleTree_immediate_disciplined.
    + apply SimpleTree_immediate_disciplined.
    + apply SimpleTree_ConvertToDirect_disciplined.
  - apply SimpleTree_immediate_disciplined.
  - apply SimpleTree_immediate_disciplined.
  - apply SimpleTree_ConvertToDirect_disciplined.
  - apply surjective_pairing.
Defined.

(** The discipline of the buffer on [10 < 20], as flags and as a value,
    and on the cached comparison, which throws. *)
Lemma RelationalOperatorNode_CodeGen_disciplined_witness :
  advances sampleTree (RelationalOperatorNode.CodeGenFlags sampleRelational sampleTree).2
  /\ advances sampleTree
       (RelationalOperatorNode.CodeGenValue sampleRelational sampleTree).2
  /\ advances cachedTree
       (RelationalOperatorNode.CodeGenValue sampleRelational cachedTree).2.
Proof.
  destruct (RelationalOperatorNode_CodeGen_disciplined sampleRelational
              (SimpleTree_immediate_disciplined 0 10)
              (SimpleTree_immediate_disciplined 1 20)
              SimpleTree_ConvertToDirect_disciplined
              SimpleTree_Direct_disciplined) as [Hflags Hvalue].
  split; [|split].
  - exact (Hflags sampleTree _ _ eq_refl).
  - exact (Hvalue sampleTree _ _ eq_refl).
  - exact (Hvalue cachedTree _ _ eq_refl).
Defined.


End FurtherNodeWitnesses.

Section RegisterTestWitnesses.
Import RegisterTests BinaryBitOps SampleRegisters.

Lemma BinaryBitOps_lowest p : N.testbit (Npos p) (lowest p) = true.
Proof.
  induction p as [p _|p IH|]; [reflexivity| |reflexivity].
  simpl lowest. change (N.pos p~0) with (2 * N.pos p + N.b2n false).
  now rewrite N.testbit_succ_r.
Qed.

(** The operations on binary numbers do what their names promise. *)
Lemma BinaryBitOps_contract : BitOpsContract.
Proof.
  split.
  - intros [|p]; [reflexivity | discriminate].
  - intros [|p] id; [discriminate|]. intros [= <-]. apply BinaryBitOps_lowest.
  - intros mask id j. simpl. rewrite N.clearbit_eqb. f_equal. f_equal.
    apply N.eqb_sym.
Qed.

(** Two snapshots that differ in every upper quadword compare like the
    snapshot with itself: no failure. *)
Lemma RegisterPreservation_ignores_upper_quadwords_witness :
  compareNonvolatiles 32 rxxNonvolatiles xmmNonvolatiles before after
  = compareNonvolatiles 32 rxxNonvolatiles xmmNonvolatiles before before.
Proof.
  refine (RegisterPreservation_ignores_upper_quadwords 32
            rxxNonvolatiles xmmNonvolatiles before before before after _ _ _ _).
  - reflexivity.
  - reflexivity.
  - reflexivity.
  - intros id. simpl. now rewrite N.even_mul.
Defined.

Example RegisterPreservation_passes_on_different_registers :
  m_xmm after 13 <> m_xmm before 13
  /\ compareNonvolatiles 32 rxxNonvolatiles xmmNonvolatiles before after = Some [].
Proof. split; [discriminate | reflexivity]. Qed.

(** The verdict on the sample snapshots. *)
Lemma RegisterPreservation_verdict_witness :
  exists failures,
    compareNonvolatiles 32 rxxNonvolatiles xmmNonvolatiles before clobbered
    = Some failures
    /\ (failures = []
        <-> (forall id, N.testbit rxxNonvolatiles id = true ->
               m_rxx before id = m_rxx clobbered id)
            /\ (forall id, N.testbit xmmNonvolatiles id = true ->
                  m_xmm before (2 * id) = m_xmm clobbered (2 * id))).
Proof.
  refine (RegisterPreservation_verdict BinaryBitOps_contract 32
            rxxNonvolatiles xmmNonvolatiles before clobbered _ _ _).
  - reflexivity.
  - reflexivity.
  - lia.
Defined.

Example RegisterPreservation_reports_RSI :
  compareNonvolatiles 32 rxxNonvolatiles xmmNonvolatiles before clobbered
  = Some [Rxx 6].
Proof. reflexivity. Qed.

(** The garbage for the sample masks. *)
Lemma garbage_keeps_the_frame_witness :
  let allowed (i : BodyInstr) :=
    match i with
    | MovImmediate dest _ => N.testbit rxxWritable dest = true /\ dest <> 4
    | MovToXmm dest source =>
        N.testbit xmmWritable dest = true /\ source = dest mod 16
    end in
  exists garbage drawn',
    FillAllWritableRegistersWithGarbage 32 rxxWritable xmmWritable
      m_uniformUInt64 ([], 0)
    = Some (inr ([] ++ garbage, drawn'))
    /\ Forall allowed garbage
    /\ forall (l : FunctionSpecification.Layout) (m1 : Machine.t),
         Machine.keepsFrame l (execAll garbage) m1.
Proof.
  refine (garbage_keeps_the_frame BinaryBitOps_contract 32 rxxWritable xmmWritable
            m_uniformUInt64 [] 0 _ _ _ _).
  - reflexivity.
  - reflexivity.
  - lia.
  - reflexivity.
Defined.

Example garbage_of_the_sample_masks :
  match FillAllWritableRegistersWithGarbage 32 rxxWritable xmmWritable
          m_uniformUInt64 ([], 0) with
  | Some (inr (garbage, drawn)) =>
      drawn = 14
      /\ length garbage = 26%nat
      /\ take 5 garbage
         = [MovImmediate 0 57005; MovImmediate 1 57006; MovImmediate 2 57007;
            MovImmediate 3 57008; MovImmediate 5 57009]
  | _ => False
  end.
Proof. vm_compute. repeat split. Qed.

(** The snapshot of the sample caller, taken at address 4096. *)
Lemma EmitSaveNonvolatilesCode_snapshot_witness :
  exists code m',
    EmitSaveNonvolatilesCode 32 rxxNonvolatiles xmmNonvolatiles 4096 []
    = Some (Return ([] ++ code))
    /\ run code SampleFrame.caller = Some m'
    /\ (forall id, N.testbit rxxNonvolatiles id = true ->
          m_rxx (snapshot m' 4096) id = Machine.rxxValue SampleFrame.caller id)
    /\ (forall id, N.testbit xmmNonvolatiles id = true ->
          (m_xmm (snapshot m' 4096) (2 * id), m_xmm (snapshot m' 4096) (2 * id + 1))
          = Machine.xmmValue SampleFrame.caller id)
    /\ (forall id, id <> 0 ->
          Machine.rxxValue m' id = Machine.rxxValue SampleFrame.caller id)
    /\ Machine.xmmValue m' = Machine.xmmValue SampleFrame.caller.
Proof.
  refine (EmitSaveNonvolatilesCode_snapshot BinaryBitOps_contract 32
            rxxNonvolatiles xmmNonvolatiles 4096 [] SampleFrame.caller
            _ _ _ _ _ _ _).
  - reflexivity.
  - reflexivity.
  - lia.
  - reflexivity.
  - reflexivity.
  - lia.
  - lia.
Defined.

Example snapshot_code_of_the_sample_masks :
  EmitSaveNonvolatilesCode 32 rxxNonvolatiles xmmNonvolatiles 4096 []
  = Some (Return
      [FImmediate OpCode.Mov rax 4376; FStore OpCode.Mov rax 0 (Rxx 3);
       FImmediate OpCode.Mov rax 4400; FStore OpCode.Mov rax 0 (Rxx 6);
       FImmediate OpCode.Mov rax 4448; FStore OpCode.Mov rax 0 (Rxx 12);
       FImmediate OpCode.Mov rax 4192; FStore OpCode.MovAligned128 rax 0 (Xmm 6);
       FImmediate OpCode.Mov rax 4256; FStore OpCode.MovAligned128 rax 0 (Xmm 10);
       FRet]).
Proof. reflexivity. Qed.

End RegisterTestWitnesses.
